(** * Telethon event layer: [telethon/events/common.py]

    A shallow embedding of the chat-set resolver ([_into_id_set]), the
    event builder ([EventBuilder]), the event instance ([EventCommon]) and
    the registration decorator ([name_inner_event]), with the properties
    of the specification stated over it.

    Python's [async def] bodies are embedded in a state-and-exception
    monad: the state holds the mutable object a method works on ([self])
    together with the external client's world and the trace of the calls
    made to it. *)

From Stdlib Require Import ZArith Ascii String List Bool Lia.
From stdpp Require Import base gmap sets list strings.

Local Open Scope Z_scope.

(** ** Exceptions and the effect monad *)

(** The exception classes that can cross this module.  None of them is a
    subclass of another. *)
Inductive exn : Type :=
| ValueError
| TypeError
| AttributeError
| RPCError
| ConnectionError.

Inductive result (A : Type) : Type :=
| Ok (a : A)
| Raise (e : exn).
Arguments Ok {A} a.
Arguments Raise {A} e.

Definition M (S A : Type) : Type := S -> result A * S.

Definition ret {S A} (a : A) : M S A := fun s => (Ok a, s).

Definition raise {S A} (e : exn) : M S A := fun s => (Raise e, s).

Definition bind {S A B} (m : M S A) (k : A -> M S B) : M S B :=
  fun s =>
    match m s with
    | (Ok a, s') => k a s'
    | (Raise e, s') => (Raise e, s')
    end.

Definition of_result {S A} (r : result A) : M S A := fun s => (r, s).

Definition get_state {S} : M S S := fun s => (Ok s, s).

Definition modify {S} (f : S -> S) : M S unit := fun s => (Ok tt, f s).

(** [try: body except ValueError: handler].  Only the body is guarded:
    whatever the handler raises goes to the caller. *)
Definition try_except_ValueError {S A} (body handler : M S A) : M S A :=
  fun s =>
    match body s with
    | (Raise ValueError, s') => handler s'
    | r => r
    end.

(** A method of an object of state [X] that also talks to the client:
    the client-only computations are run on the second component. *)
Definition lift_net {X N A} (m : M N A) : M (X * N) A :=
  fun s =>
    let (r, n') := m (snd s) in (r, (fst s, n')).

Notation "x <- m ;; k" := (bind m (fun x => k))
  (at level 100, m at next level, right associativity).
Notation "m ;;; k" := (bind m (fun _ => k))
  (at level 100, right associativity).

(** Accessing an [async def] property (or calling an [async def]) only
    builds a coroutine object; its body runs when the object is awaited. *)
Inductive Coroutine (S A : Type) : Type :=
| coroutine (body : M S A).
Arguments coroutine {S A} body.

Definition await {S A} (c : Coroutine S A) : M S A :=
  match c with coroutine body => body end.

(** Truth value of a coroutine object: the type defines neither
    [__bool__] nor [__len__], so every instance is true. *)
Definition bool_of_coroutine {S A} (c : Coroutine S A) : bool := true.

(** ** TL objects ([telethon.tl.types]) *)

(** Modelled from the spec: the [types] module is not among the
    sources.  The typed peer references ([Peer] family) and the addressable references
    ([InputPeer] family) the code names or receives. *)
Inductive TLObject : Type :=
| PeerUser (user_id : Z)
| PeerChat (chat_id : Z)
| PeerChannel (channel_id : Z)
| InputPeerEmpty
| InputPeerSelf
| InputPeerChat (chat_id : Z)
| InputPeerUser (user_id access_hash : Z)
| InputPeerChannel (channel_id access_hash : Z).

(** [0x2d45687 == crc32(b'Peer')], the discriminator of the Peer family;
    [0xc91c90b6] is the one of the InputPeer family. *)
Definition SUBCLASS_OF_ID (o : TLObject) : Z :=
  match o with
  | PeerUser _ | PeerChat _ | PeerChannel _ => 0x2d45687
  | _ => 0xc91c90b6
  end.

Definition isinstance_PeerUser (o : option TLObject) : bool :=
  match o with Some (PeerUser _) => true | _ => false end.

Definition isinstance_PeerChat (o : option TLObject) : bool :=
  match o with Some (PeerChat _) => true | _ => false end.

Definition isinstance_PeerChannel (o : option TLObject) : bool :=
  match o with Some (PeerChannel _) => true | _ => false end.

Definition isinstance_InputPeerSelf (o : TLObject) : bool :=
  match o with InputPeerSelf => true | _ => false end.

(** The [.user_id] attribute; the other classes do not have it. *)
Definition attr_user_id (o : TLObject) : result Z :=
  match o with
  | PeerUser i | InputPeerUser i _ => Ok i
  | _ => Raise AttributeError
  end.

(** Modelled from the spec: the full chat entities ([User], [Chat],
    [Channel]) are declared in the same absent [types] module.  This
    module only stores them and hands them back; they are told apart by
    kind, id and display name. *)
Inductive Entity : Type :=
| User (id : Z) (first_name : string)
| Chat (id : Z) (title : string)
| Channel (id : Z) (title : string).

(** What a caller may put in [chats]: an integer, a TL object, or
    anything else the client can look up (a username, a phone, ...). *)
Inductive chat_ref : Type :=
| RefInt (n : Z)
| RefTL (o : TLObject)
| RefStr (s : string).

(** The value held by [EventBuilder.chats]: [None], one bare reference, a
    list of references, or (after [resolve]) a set of IDs. *)
Inductive chats_val : Type :=
| CNone
| CSingle (r : chat_ref)
| CList (l : list chat_ref)
| CSet (s : gset Z).

(** Modelled from the spec: a fetched message exposes its already
    resolved chat and input chat, either of which may be missing. *)
Module Message.
Record t : Type := mk { _chat : option Entity; _input_chat : option TLObject }.
End Message.

(** Modelled from the spec: a dialog pairs a canonical ID with its
    entity and its input entity. *)
Module Dialog.
Record t : Type := mk { id : Z; entity : Entity; input_entity : TLObject }.
End Dialog.

(** ** The external client *)

(** The requests this module sends to the client.  [Anext] is one step of
    the [async for] over [iter_dialogs()], labelled with the dialog it
    produced ([None] when the generator is exhausted or fails). *)
Inductive request : Type :=
| GetInputEntity (r : chat_ref)
| GetMe
| GetMessages (ids : Z)
| IterDialogs
| Anext (d : option Dialog.t)
| GetEntity (arg : option TLObject).

(** A trace entry: the request and the exception it ended with, if any. *)
Definition entry : Type := request * option exn.

Definition outcome {A} (r : result A) : option exn :=
  match r with Ok _ => None | Raise e => Some e end.

Section Client.

Context {W : Type}.

(** The client is an oracle over its own state [W].  [get_me] stands for
    [get_me(input_peer=True)], [get_messages] for
    [get_messages(None, ids=i)].  [iter_dialogs] gives the finite sequence
    the generator yields and how it ends (exhausted, or an exception). *)
Record TelegramClient : Type := {
  get_input_entity : chat_ref -> W -> result TLObject * W;
  get_me : W -> result TLObject * W;
  get_messages : Z -> W -> result (option Message.t) * W;
  iter_dialogs : W -> (list Dialog.t * option exn) * W;
  get_entity : option TLObject -> W -> result Entity * W
}.

Record Net : Type := { world : W; trace : list entry }.

Definition request_ {A} (rq : request) (f : W -> result A * W) : M Net A :=
  fun n =>
    let (r, w') := f (world n) in
    (r, {| world := w'; trace := trace n ++ [(rq, outcome r)] |}).

Definition call_get_input_entity (c : TelegramClient) (r : chat_ref) :=
  request_ (GetInputEntity r) (get_input_entity c r).

Definition call_get_me (c : TelegramClient) :=
  request_ GetMe (get_me c).

Definition call_get_messages (c : TelegramClient) (i : Z) :=
  request_ (GetMessages i) (get_messages c i).

Definition call_get_entity (c : TelegramClient) (a : option TLObject) :=
  request_ (GetEntity a) (get_entity c a).

(** ** Peer identity ([utils.get_peer_id]) *)

(** The [utils] module is not among the sources: the encoding is a
    parameter.  It receives a TL object or [None], and gives the marked
    ID or raises. *)
Variable get_peer_id : option TLObject -> result Z.

(** ** [_into_id_set] *)

(** The body of [for chat in chats], on the accumulator [result]. *)
Definition into_id_set_step (client : TelegramClient) (result : gset Z)
    (chat : chat_ref) : M Net (gset Z) :=
  let lookup :=
    chat' <- call_get_input_entity client chat ;;
    chat' <- (if isinstance_InputPeerSelf chat'
              then call_get_me client else ret chat') ;;
    i <- of_result (get_peer_id (Some chat')) ;;
    ret (result ∪ {[ i ]}) in
  match chat with
  | RefInt n =>
      if n <? 0 then ret (result ∪ {[ n ]})
      else
        u <- of_result (get_peer_id (Some (PeerUser n))) ;;
        g <- of_result (get_peer_id (Some (PeerChat n))) ;;
        ch <- of_result (get_peer_id (Some (PeerChannel n))) ;;
        ret (result ∪ {[ u; g; ch ]})
  | RefTL o =>
      if SUBCLASS_OF_ID o =? 0x2d45687 then
        i <- of_result (get_peer_id (Some o)) ;;
        ret (result ∪ {[ i ]})
      else lookup
  | RefStr _ => lookup
  end.

Fixpoint into_id_set_loop (client : TelegramClient) (chats : list chat_ref)
    (result : gset Z) : M Net (gset Z) :=
  match chats with
  | [] => ret result
  | chat :: rest =>
      result' <- into_id_set_step client result chat ;;
      into_id_set_loop client rest result'
  end.

(** [utils.is_list_like]: lists and sets are, a bare reference is not.
    Iterating a set of IDs visits its integers. *)
Definition iterable (chats : chats_val) : list chat_ref :=
  match chats with
  | CNone => []
  | CSingle r => [r]
  | CList l => l
  | CSet s => RefInt <$> elements s
  end.

Definition _into_id_set (client : TelegramClient) (chats : chats_val)
    : M Net (option (gset Z)) :=
  match chats with
  | CNone => ret None
  | _ =>
      result <- into_id_set_loop client (iterable chats) ∅ ;;
      ret (Some result)
  end.

(** ** [EventBuilder] *)

Record EventBuilder : Type := {
  chats : chats_val;
  blacklist_chats : bool;
  _self_id : option Z
}.

Definition EventBuilder__init__ (chats : chats_val) (blacklist_chats : bool)
    : EventBuilder :=
  {| chats := chats; blacklist_chats := blacklist_chats; _self_id := None |}.

Definition resolved (r : option (gset Z)) : chats_val :=
  match r with None => CNone | Some s => CSet s end.

Definition set_chats (v : chats_val) (b : EventBuilder) : EventBuilder :=
  {| chats := v; blacklist_chats := blacklist_chats b; _self_id := _self_id b |}.

Definition set_self_id (i : Z) (b : EventBuilder) : EventBuilder :=
  {| chats := chats b; blacklist_chats := blacklist_chats b; _self_id := Some i |}.

Definition on_self {X N} (f : X -> X) : M (X * N) unit :=
  modify (fun s => (f (fst s), snd s)).

Definition self {X N} : M (X * N) X := fun s => (Ok (fst s), s).

Definition resolve (client : TelegramClient) : M (EventBuilder * Net) unit :=
  this <- self ;;
  r <- lift_net (_into_id_set client (chats this)) ;;
  on_self (set_chats (resolved r)) ;;;
  me <- lift_net (call_get_me client) ;;
  i <- of_result (attr_user_id me) ;;
  on_self (set_self_id i).

(** ** [EventCommon] *)

Record EventCommon : Type := {
  _entities : gmap Z Entity;
  _client : option TelegramClient;
  _chat_peer : option TLObject;
  _message_id : option Z;
  _input_chat : option TLObject;
  _chat : option Entity;
  pattern_match : option string;
  original_update : option string;
  is_private : bool;
  is_group : bool;
  is_channel : bool
}.

Definition EventCommon__init__ (chat_peer : option TLObject)
    (msg_id : option Z) (broadcast : bool) : EventCommon :=
  {| _entities := ∅;
     _client := None;
     _chat_peer := chat_peer;
     _message_id := msg_id;
     _input_chat := None;
     _chat := None;
     pattern_match := None;
     original_update := None;
     is_private := isinstance_PeerUser chat_peer;
     is_group :=
       (isinstance_PeerChat chat_peer || isinstance_PeerChannel chat_peer)
       && negb broadcast;
     is_channel := isinstance_PeerChannel chat_peer |}.

Definition set_client (c : option TelegramClient) (e : EventCommon) :=
  {| _entities := _entities e; _client := c; _chat_peer := _chat_peer e;
     _message_id := _message_id e; _input_chat := _input_chat e;
     _chat := _chat e; pattern_match := pattern_match e;
     original_update := original_update e; is_private := is_private e;
     is_group := is_group e; is_channel := is_channel e |}.

Definition set_entities (m : gmap Z Entity) (e : EventCommon) :=
  {| _entities := m; _client := _client e; _chat_peer := _chat_peer e;
     _message_id := _message_id e; _input_chat := _input_chat e;
     _chat := _chat e; pattern_match := pattern_match e;
     original_update := original_update e; is_private := is_private e;
     is_group := is_group e; is_channel := is_channel e |}.

Definition set_input_chat (v : option TLObject) (e : EventCommon) :=
  {| _entities := _entities e; _client := _client e;
     _chat_peer := _chat_peer e; _message_id := _message_id e;
     _input_chat := v; _chat := _chat e; pattern_match := pattern_match e;
     original_update := original_update e; is_private := is_private e;
     is_group := is_group e; is_channel := is_channel e |}.

Definition set_chat (v : option Entity) (e : EventCommon) :=
  {| _entities := _entities e; _client := _client e;
     _chat_peer := _chat_peer e; _message_id := _message_id e;
     _input_chat := _input_chat e; _chat := v;
     pattern_match := pattern_match e;
     original_update := original_update e; is_private := is_private e;
     is_group := is_group e; is_channel := is_channel e |}.

Definition _set_client (client : TelegramClient) (e : EventCommon) :=
  set_client (Some client) e.

(** The state of a method of an event: the event and the client's side. *)
Definition Ev : Type := EventCommon * Net.

(** [self._client.<method>]: the attribute lookup fails on [None]. *)
Definition the_client : M Ev TelegramClient :=
  this <- self ;;
  match _client this with
  | Some c => ret c
  | None => raise AttributeError
  end.

Definition log (e : entry) : M Ev unit :=
  modify (fun s : Ev =>
    (fst s, {| world := world (snd s); trace := trace (snd s) ++ [e] |})).

(** The steps of [async for d in ...: body] that yield a dialog. *)
Fixpoint for_each (ds : list Dialog.t) (body : Dialog.t -> M Ev unit)
    : M Ev unit :=
  match ds with
  | [] => ret tt
  | d :: rest =>
      log (Anext (Some d), None) ;;;
      body d ;;;
      for_each rest body
  end.

(** [async for d in self._client.iter_dialogs(): body].  The loop has no
    [break]: it asks for the next dialog until the generator is exhausted
    or raises. *)
Definition async_for_dialogs (c : TelegramClient)
    (body : Dialog.t -> M Ev unit) : M Ev unit :=
  s <- get_state ;;
  let '(ds, stop, w') := iter_dialogs c (world (snd s)) in
  log (IterDialogs, None) ;;;
  for_each ds body ;;;
  modify (fun s : Ev =>
    (fst s, {| world := w'; trace := trace (snd s) ++ [(Anext None, stop)] |})) ;;;
  match stop with
  | None => ret tt
  | Some e => raise e
  end.

(** The body of the loop over the dialogs, [if d.id == target: ...]. *)
Definition scan_body (target : Z) (d : Dialog.t) : M Ev unit :=
  if Dialog.id d =? target then
    on_self (set_chat (Some (Dialog.entity d))) ;;;
    on_self (set_input_chat (Some (Dialog.input_entity d)))
  else ret tt.

(** The statement [if self._input_chat is None and self._chat_peer is
    not None: ...] of [input_chat]. *)
Definition resolve_input_chat : M Ev unit :=
  this <- self ;;
  match _input_chat this, _chat_peer this with
  | None, Some peer =>
      try_except_ValueError
        (c <- the_client ;;
         r <- lift_net (call_get_input_entity c (RefTL peer)) ;;
         on_self (set_input_chat (Some r)))
        (let ch := isinstance_PeerChannel (_chat_peer this) in
         match negb ch, _message_id this with
         | true, Some mid =>
             c <- the_client ;;
             msg <- lift_net (call_get_messages c mid) ;;
             match msg with
             | None => raise AttributeError
             | Some m =>
                 on_self (set_chat (Message._chat m)) ;;;
                 on_self (set_input_chat (Message._input_chat m))
             end
         | _, _ =>
             target <- of_result (get_peer_id (_chat_peer this)) ;;
             c <- the_client ;;
             async_for_dialogs c (scan_body target)
         end)
  | _, _ => ret tt
  end.

Definition input_chat : Coroutine Ev (option TLObject) := coroutine (
  resolve_input_chat ;;;
  this <- self ;;
  ret (_input_chat this)).

Definition client (e : EventCommon) : option TelegramClient := _client e.

(** [if not self.input_chat]: the property is read but not awaited, so
    the test is on the coroutine object. *)
Definition chat : Coroutine Ev (option Entity) := coroutine (
  if negb (bool_of_coroutine input_chat) then ret None
  else
    this <- self ;;
    match _chat this with
    | None =>
        i <- of_result (get_peer_id (_chat_peer this)) ;;
        on_self (set_chat (_entities this !! i))
    | Some _ => ret tt
    end ;;;
    this <- self ;;
    match _chat this with
    | None =>
        c <- the_client ;;
        e <- lift_net (call_get_entity c (_input_chat this)) ;;
        on_self (set_chat (Some e))
    | Some _ => ret tt
    end ;;;
    this <- self ;;
    ret (_chat this)).

Definition chat_id (e : EventCommon) : result (option Z) :=
  match _chat_peer e with
  | Some _ =>
      match get_peer_id (_chat_peer e) with
      | Ok i => Ok (Some i)
      | Raise x => Raise x
      end
  | None => Ok None
  end.

(** ** [EventBuilder._filter_event] *)

(** [x in chats] for an integer [x]: membership in a set, equality with
    an element of a list (an integer equals no TL object and no string),
    and [TypeError] on a value that is not a container of integers. *)
Definition py_in (x : Z) (c : chats_val) : result bool :=
  match c with
  | CSet s => Ok (bool_decide (x ∈ s))
  | CList l =>
      Ok (existsb (fun r => match r with RefInt n => n =? x | _ => false end) l)
  | CSingle _ | CNone => Raise TypeError
  end.

Definition _filter_event (this : EventBuilder) (event : EventCommon)
    : result (option EventCommon) :=
  match chats this with
  | CNone => Ok (Some event)
  | c =>
      match get_peer_id (_chat_peer event) with
      | Raise x => Raise x
      | Ok i =>
          match py_in i c with
          | Raise x => Raise x
          | Ok inside =>
              if Bool.eqb inside (blacklist_chats this) then Ok None
              else Ok (Some event)
          end
      end
  end.

End Client.

Arguments TelegramClient W : clear implicits.
Arguments Net W : clear implicits.
Arguments EventCommon W : clear implicits.
Arguments Ev W : clear implicits.

(** ** [name_inner_event] *)

Module Class.
(** The nested class [cls.Event]: its class attribute [_event_name]
    starts as the one of [EventCommon], ['Event']. *)
Record inner : Type := mk_inner { _event_name : string }.

(** A class handed to the decorator: its module and name, and the
    attribute [Event] if [hasattr(cls, 'Event')].  The class is one
    defined at the top of its module, so that its qualified name, which
    [str] prints, is its name. *)
Record t : Type := mk { module_ : string; name_ : string; Event : option inner }.

Definition str (cls : t) : string :=
  "<class '" +:+ module_ cls +:+ "." +:+ name_ cls +:+ "'>".
End Class.

(** The decorator returns the class and the warnings it issued. *)
Definition name_inner_event (cls : Class.t) : Class.t * list string :=
  match Class.Event cls with
  | Some _ =>
      ({| Class.module_ := Class.module_ cls;
          Class.name_ := Class.name_ cls;
          Class.Event := Some (Class.mk_inner (Class.name_ cls +:+ ".Event")) |},
       [])
  | None =>
      (cls, ["Class " +:+ Class.str cls +:+ " does not have a inner Event"])
  end.

(** ** Vocabulary of the statements *)

(** The event after it adopted the chat and input chat of a dialog. *)
Definition adopt {W} (d : Dialog.t) (e : EventCommon W) : EventCommon W :=
  set_input_chat (Some (Dialog.input_entity d))
    (set_chat (Some (Dialog.entity d)) e).

(** The dialogs of a sequence whose ID is the target, in order. *)
Definition matching (target : Z) (ds : list Dialog.t) : list Dialog.t :=
  List.filter (fun d => Dialog.id d =? target) ds.

Definition first_match (target : Z) (ds : list Dialog.t) : option Dialog.t :=
  head (matching target ds).

Definition last_match (target : Z) (ds : list Dialog.t) : option Dialog.t :=
  last (matching target ds).

(** The state after [k] further runs of a method. *)
Fixpoint again {St A} (m : M St A) (k : nat) (s : St) : St :=
  match k with
  | O => s
  | S k' => again m k' (snd (m s))
  end.

(** Reads of the two lazy properties, in any order. *)
Inductive access : Type :=
| ReadInputChat
| ReadChat.

Definition after_access {W} (get_peer_id : option TLObject -> result Z)
    (s : Ev W) (a : access) : Ev W :=
  match a with
  | ReadInputChat => snd (await (input_chat get_peer_id) s)
  | ReadChat => snd (await (chat get_peer_id) s)
  end.

Definition after_accesses {W} (get_peer_id : option TLObject -> result Z)
    (l : list access) (s : Ev W) : Ev W :=
  fold_left (after_access get_peer_id) l s.

(** The trace of a loop that was handed every dialog of [ds]. *)
Definition yielded (ds : list Dialog.t) : list entry :=
  (fun d => (Anext (Some d), None)) <$> ds.

(** What the specification says one integer reference adds to the set,
    given the encodings [eu], [eg], [ech] of a raw ID as a user, a basic
    group and a channel. *)
Definition contribution (eu eg ech : Z -> Z) (n : Z) : gset Z :=
  if n <? 0 then {[ n ]} else {[ eu n; eg n; ech n ]}.

(** No request of the trace ended with an exception. *)
Definition clean (tr : list entry) : Prop :=
  Forall (fun en => snd en = None) tr.

(** The requests [tr] made by a run that ended with [r]: either all of
    them succeeded, or the last one raised and that is what the run
    ended with. *)
Definition fail_last {A} (r : result A) (tr : list entry) : Prop :=
  clean tr \/
  exists tr0 rq e, tr = tr0 ++ [(rq, Some e)] /\ clean tr0 /\ r = Raise e.

(** The three encodings of the raw ID [k] are [eu k], [eg k], [ech k]. *)
Definition encoded (get_peer_id : option TLObject -> result Z)
    (eu eg ech : Z -> Z) (k : Z) : Prop :=
  get_peer_id (Some (PeerUser k)) = Ok (eu k) /\
  get_peer_id (Some (PeerChat k)) = Ok (eg k) /\
  get_peer_id (Some (PeerChannel k)) = Ok (ech k).

(** ** Sample collaborators, used to run the definitions *)

(** Modelled from the spec: [utils.get_peer_id] is not among the
    sources.  One encoding in which canonical IDs are unique per (kind, raw id): a user
    ID is kept, a basic-group ID is negated, a channel ID is negated and
    shifted.  It only instantiates the parameter in the examples. *)
Definition sample_peer_id (o : option TLObject) : result Z :=
  match o with
  | Some (PeerUser i) | Some (InputPeerUser i _) => Ok i
  | Some (PeerChat i) | Some (InputPeerChat i) => Ok (- i)
  | Some (PeerChannel i) | Some (InputPeerChannel i _) =>
      Ok (- (1000000000000 + i))
  | _ => Raise TypeError
  end.

(** A client that knows nobody: every lookup is "not found", there are no
    dialogs, and [get_entity] rejects what is not an input peer. *)
Definition lonely_client : TelegramClient unit :=
  {| get_input_entity := fun _ w => (Raise ValueError, w);
     get_me := fun w => (Ok (InputPeerUser 7 0), w);
     get_messages := fun _ w => (Ok None, w);
     iter_dialogs := fun w => (([], None), w);
     get_entity := fun a w =>
       match a with
       | Some (InputPeerUser i _) => (Ok (User i "someone"), w)
       | _ => (Raise TypeError, w)
       end |}.

Definition fresh_net : Net unit := {| world := tt; trace := [] |}.

(** Two dialogs with the same ID and different contents. *)
Definition first_twin : Dialog.t :=
  Dialog.mk (-1000000000005) (Channel 5 "first") (InputPeerChannel 5 11).

Definition second_twin : Dialog.t :=
  Dialog.mk (-1000000000005) (Channel 5 "second") (InputPeerChannel 5 22).

Definition twin_dialogs : list Dialog.t :=
  [Dialog.mk 3 (User 3 "other") (InputPeerUser 3 1); first_twin; second_twin].

(** A client that cannot resolve a peer directly, but has messages and
    dialogs. *)
Definition twin_client : TelegramClient unit :=
  {| get_input_entity := fun _ w => (Raise ValueError, w);
     get_me := fun w => (Ok (InputPeerUser 7 0), w);
     get_messages := fun _ w =>
       (Ok (Some (Message.mk (Some (User 5 "from message"))
                             (Some (InputPeerUser 5 1)))), w);
     iter_dialogs := fun w => ((twin_dialogs, None), w);
     get_entity := fun _ w => (Raise TypeError, w) |}.

Definition channel_event : EventCommon unit :=
  _set_client twin_client
    (EventCommon__init__ (Some (PeerChannel 5)) (Some 9) false).

Definition user_event : EventCommon unit :=
  _set_client twin_client
    (EventCommon__init__ (Some (PeerUser 5)) (Some 9) false).

Definition lonely_event : EventCommon unit :=
  _set_client lonely_client
    (EventCommon__init__ (Some (PeerUser 1)) None false).

(** The same event, with its peer in the local entity table. *)
Definition local_event : EventCommon unit :=
  set_entities {[ 1 := User 1 "local" ]} lonely_event.

(** ** Vocabulary of the further statements *)

(** The references [_into_id_set] turns into IDs by itself: integers and
    TL objects of the Peer family. *)
Definition local_ref (r : chat_ref) : bool :=
  match r with
  | RefInt _ => true
  | RefTL o => SUBCLASS_OF_ID o =? 0x2d45687
  | RefStr _ => false
  end.

(** Everything of an event but its two caches. *)
Definition same_setup {W} (e e' : EventCommon W) : Prop :=
  _entities e' = _entities e /\
  _client e' = _client e /\
  _chat_peer e' = _chat_peer e /\
  _message_id e' = _message_id e /\
  pattern_match e' = pattern_match e /\
  original_update e' = original_update e /\
  is_private e' = is_private e /\
  is_group e' = is_group e /\
  is_channel e' = is_channel e.

(** ** [EventCommon.to_dict] *)

(** The values the attributes of an event hold. *)
Inductive pyval (W : Type) : Type :=
| PyNone
| PyBool (b : bool)
| PyInt (z : Z)
| PyStr (s : string)
| PyTL (o : TLObject)
| PyEntity (e : Entity)
| PyEntities (m : gmap Z Entity)
| PyClient (c : TelegramClient W).
Arguments PyNone {W}.
Arguments PyBool {W} b.
Arguments PyInt {W} z.
Arguments PyStr {W} s.
Arguments PyTL {W} o.
Arguments PyEntity {W} e.
Arguments PyEntities {W} m.
Arguments PyClient {W} c.

Definition py_option {W A} (f : A -> pyval W) (o : option A) : pyval W :=
  match o with Some a => f a | None => PyNone end.

(** [self.__dict__] of an instance of the base class: the attributes in
    the order [__init__] assigns them. *)
Definition instance_dict {W} (e : EventCommon W) : list (string * pyval W) :=
  [("_entities", PyEntities (_entities e));
   ("_client", py_option PyClient (_client e));
   ("_chat_peer", py_option PyTL (_chat_peer e));
   ("_message_id", py_option PyInt (_message_id e));
   ("_input_chat", py_option PyTL (_input_chat e));
   ("_chat", py_option PyEntity (_chat e));
   ("pattern_match", py_option PyStr (pattern_match e));
   ("original_update", py_option PyStr (original_update e));
   ("is_private", PyBool (is_private e));
   ("is_group", PyBool (is_group e));
   ("is_channel", PyBool (is_channel e))].

(** The outcome of code whose only exception is the [IndexError] of
    [k[0]] on an empty string. *)
Inductive indexed (A : Type) : Type :=
| Indexed (a : A)
| IndexError.
Arguments Indexed {A} a.
Arguments IndexError {A}.

(** [{k: v for k, v in items if k[0] != '_'}], on the items of a
    dictionary in insertion order. *)
Fixpoint public_items {V} (items : list (string * V))
    : indexed (list (string * V)) :=
  match items with
  | [] => Indexed []
  | (k, v) :: rest =>
      match k with
      | EmptyString => IndexError
      | String c _ =>
          match public_items rest with
          | IndexError => IndexError
          | Indexed r =>
              Indexed (if Ascii.eqb c "_"%char then r else (k, v) :: r)
          end
      end
  end.

(** [d[k]] as a lookup, and [d[k] = v]: the value of an existing key is
    replaced in place, a new key goes last. *)
Fixpoint dict_get {V} (k : string) (d : list (string * V)) : option V :=
  match d with
  | [] => None
  | (k', v') :: rest => if String.eqb k' k then Some v' else dict_get k rest
  end.

Fixpoint dict_set {V} (k : string) (v : V) (d : list (string * V))
    : list (string * V) :=
  match d with
  | [] => [(k, v)]
  | (k', v') :: rest =>
      if String.eqb k' k then (k', v) :: rest
      else (k', v') :: dict_set k v rest
  end.

(** [self._event_name]: the attribute of the instance if it has one,
    else the attribute of its class. *)
Definition getattr_event_name {V} (class_event_name : V)
    (d : list (string * V)) : V :=
  match dict_get "_event_name" d with
  | Some v => v
  | None => class_event_name
  end.

(** [to_dict], on the [__dict__] of any instance. *)
Definition to_dict_of {V} (class_event_name : V) (d : list (string * V))
    : indexed (list (string * V)) :=
  match public_items d with
  | IndexError => IndexError
  | Indexed r =>
      Indexed (dict_set "_" (getattr_event_name class_event_name d) r)
  end.

(** [to_dict] of an instance of the base class, whose class is [cls]. *)
Definition to_dict {W} (cls : Class.inner) (e : EventCommon W)
    : indexed (list (string * pyval W)) :=
  to_dict_of (PyStr (Class._event_name cls)) (instance_dict e).

(** The name of an attribute starts with an underscore. *)
Definition private (k : string) : bool :=
  match k with
  | String c _ => Ascii.eqb c "_"%char
  | EmptyString => false
  end.

(** ** More sample collaborators *)

(** A client that counts the requests it served, knows the user "durov"
    and every user peer, and answers "me" with the self marker. *)
Definition friendly_client : TelegramClient nat :=
  {| get_input_entity := fun r w =>
       (match r with
        | RefStr s =>
            if String.eqb s "me" then Ok InputPeerSelf
            else if String.eqb s "durov" then Ok (InputPeerUser 1 99)
            else Raise ValueError
        | RefTL (PeerUser i) => Ok (InputPeerUser i 99)
        | _ => Raise ValueError
        end, S w);
     get_me := fun w => (Ok (InputPeerUser 7 0), S w);
     get_messages := fun _ w => (Ok None, S w);
     iter_dialogs := fun w => (([], None), S w);
     get_entity := fun a w =>
       (match a with
        | Some (InputPeerUser i _) => Ok (User i "someone")
        | _ => Raise TypeError
        end, S w) |}.

Definition friendly_net : Net nat := {| world := 0%nat; trace := [] |}.

Definition friendly_event : EventCommon nat :=
  _set_client friendly_client
    (EventCommon__init__ (Some (PeerUser 5)) None false).

(** A client whose connection drops at the end of the dialog list. *)
Definition flaky_client : TelegramClient unit :=
  {| get_input_entity := fun _ w => (Raise ValueError, w);
     get_me := fun w => (Raise RPCError, w);
     get_messages := fun _ w => (Raise RPCError, w);
     iter_dialogs := fun w => ((twin_dialogs, Some ConnectionError), w);
     get_entity := fun _ w => (Raise RPCError, w) |}.

Definition flaky_event : EventCommon unit :=
  _set_client flaky_client
    (EventCommon__init__ (Some (PeerChannel 5)) None false).

(** An event without a chat peer, and one that was not given a client. *)
Definition orphan_event : EventCommon unit :=
  EventCommon__init__ None None false.

Definition clientless_event : EventCommon unit :=
  EventCommon__init__ (Some (PeerUser 1)) None false.

(** ** Dialog sequences *)






(** The event of a user whose entity came with the update, on a client
    that only finds the user through the message. *)
Definition cached_event : EventCommon unit :=
  set_entities {[ 5 := User 5 "local" ]} user_event.

(** ** Tactics *)

(** Projections of states that are given by their fields. *)
Ltac simpl_state :=
  cbn [fst snd negb world trace outcome set_chat set_input_chat
       _entities _client _chat_peer _message_id _input_chat _chat].

(** Unfolds the monadic operations of a method body. *)
Ltac unfold_method :=
  cbv [await bind self ret raise of_result get_state modify lift_net on_self
       the_client log try_except_ValueError request_ call_get_input_entity
       call_get_me call_get_messages call_get_entity];
  simpl_state.

(** Rewrites with the equations at hand, left to right. *)
Ltac use_equations :=
  repeat match goal with
         | H : ?x = _ |- context [?x] => rewrite H; simpl_state
         end.

(** Case analysis on the innermost value a run is waiting for. *)
Ltac case_step :=
  match goal with
  | |- context [match ?x with _ => _ end] =>
      lazymatch x with
      | context [match _ with _ => _ end] => fail
      | _ => destruct x eqn:?
      end
  end.

(** Runs [input_chat] or [chat] as far as the hypotheses determine. *)
Ltac run_method :=
  cbv [chat]; cbn [bool_of_coroutine negb];
  cbv [input_chat resolve_input_chat async_for_dialogs];
  unfold_method; use_equations;
  repeat (progress (unfold_method; use_equations)).

(** ** Classification flags *)

(** C10: the flags set by the constructor are not mutually exclusive: a
    channel-kind peer with [broadcast=False] makes both [is_group] and
    [is_channel] true; [is_private] excludes [is_group] and [is_channel];
    without a chat peer the three flags are false. *)
Theorem init_flags (W : Type) :
  (forall (i : Z) (msg_id : option Z),
      let e := @EventCommon__init__ W (Some (PeerChannel i)) msg_id false in
      is_group e = true /\ is_channel e = true) /\
  (forall (chat_peer : option TLObject) (msg_id : option Z) (broadcast : bool),
      let e := @EventCommon__init__ W chat_peer msg_id broadcast in
      is_private e = true -> is_group e = false /\ is_channel e = false) /\
  (forall (msg_id : option Z) (broadcast : bool),
      let e := @EventCommon__init__ W None msg_id broadcast in
      is_private e = false /\ is_group e = false /\ is_channel e = false).
Proof.
  repeat split.
  - destruct chat_peer as [[]|]; simpl in *; congruence.
  - destruct chat_peer as [[]|]; simpl in *; congruence.
Qed.

Lemma init_flags_witness :
  let e := @EventCommon__init__ unit (Some (PeerUser 5)) None true in
  is_private e = true /\ is_group e = false /\ is_channel e = false.
Proof.
  split; [reflexivity |].
  destruct (init_flags unit) as [_ [H _]].
  apply (H (Some (PeerUser 5)) None true). reflexivity.
Defined.

(** ** Registration *)

(** C9: with a nested [Event] the decorator stamps its [_event_name] with
    the class name followed by [.Event] and warns about nothing; without
    one it issues one warning and returns the class as it was. *)
Theorem name_inner_event_spec (cls : Class.t) :
  (forall ev, Class.Event cls = Some ev ->
     exists cls',
       name_inner_event cls = (cls', []) /\
       Class.Event cls' =
         Some (Class.mk_inner (Class.name_ cls +:+ ".Event")) /\
       Class.name_ cls' = Class.name_ cls /\
       Class.module_ cls' = Class.module_ cls) /\
  (Class.Event cls = None ->
     exists w, name_inner_event cls = (cls, [w])).
Proof.
  unfold name_inner_event. split.
  - intros ev ->. eexists. repeat split.
  - intros ->. eexists. reflexivity.
Qed.

Lemma name_inner_event_spec_witness :
  (exists cls',
     name_inner_event
       (Class.mk "telethon.events.newmessage" "NewMessage"
                 (Some (Class.mk_inner "Event"))) = (cls', []) /\
     Class.Event cls' = Some (Class.mk_inner "NewMessage.Event")) /\
  (exists w,
     name_inner_event (Class.mk "telethon.events.raw" "Raw" None)
     = (Class.mk "telethon.events.raw" "Raw" None, [w])).
Proof.
  split.
  - destruct (name_inner_event_spec
                (Class.mk "telethon.events.newmessage" "NewMessage"
                          (Some (Class.mk_inner "Event")))) as [H _].
    destruct (H _ eq_refl) as [cls' [H1 [H2 _]]].
    exists cls'. split; [exact H1 | exact H2].
  - destruct (name_inner_event_spec
                (Class.mk "telethon.events.raw" "Raw" None)) as [_ H].
    exact (H eq_refl).
Defined.

(** ** The chat filter *)

Section Filter.

Context {W : Type}.
Variable get_peer_id : option TLObject -> result Z.

(** C1: on a resolved builder and an event whose chat peer has canonical
    ID [i], [_filter_event] returns the event itself exactly when there is
    no chat set, or [i] is in the set in whitelist mode, or [i] is not in
    the set in blacklist mode; in every other case it returns [None]. *)
Theorem filter_event_spec (b : EventBuilder) (e : EventCommon W)
    (r : option (gset Z)) (p : TLObject) (i : Z) :
  chats b = resolved r ->
  _chat_peer e = Some p ->
  get_peer_id (Some p) = Ok i ->
  let pass :=
    r = None \/
    exists S, r = Some S /\
      (if blacklist_chats b then i ∉ S else i ∈ S) in
  (_filter_event get_peer_id b e = Ok (Some e) <-> pass) /\
  (~ pass -> _filter_event get_peer_id b e = Ok None).
Proof.
  intros Hc Hp Hi pass. subst pass. unfold _filter_event.
  rewrite Hc, Hp, Hi. destruct r as [S|]; simpl.
  - destruct (blacklist_chats b) eqn:Hb; case_bool_decide; simpl; split.
    + split; [discriminate |]. intros [|[S' [[= <-] ?]]]; done.
    + reflexivity.
    + split; [| reflexivity]. intros _. right. eauto.
    + intros Hn. exfalso. apply Hn. right. eauto.
    + split; [| reflexivity]. intros _. right. eauto.
    + intros Hn. exfalso. apply Hn. right. eauto.
    + split; [discriminate |]. intros [|[S' [[= <-] ?]]]; done.
    + reflexivity.
  - split; [split; auto | intros Hn; exfalso; apply Hn; auto].
Qed.

End Filter.

Lemma filter_event_spec_witness :
  let b := {| chats := CSet {[ -100 ]}; blacklist_chats := true;
              _self_id := Some 7 |} in
  let e := @EventCommon__init__ unit (Some (PeerChat 100)) None false in
  _filter_event sample_peer_id b e = Ok None.
Proof.
  intros b e.
  apply (filter_event_spec sample_peer_id b e (Some {[ -100 ]})
           (PeerChat 100) (-100) eq_refl eq_refl eq_refl).
  intros [H | [S [[= <-] H]]]; [discriminate |].
  simpl in H. apply H. set_solver.
Defined.

(** ** Chat-set resolution *)

Section Resolver.

Context {W : Type}.
Variable get_peer_id : option TLObject -> result Z.
Variable client : TelegramClient W.

Lemma clean_nil : clean [].
Proof. constructor. Qed.

Lemma clean_app (t1 t2 : list entry) : clean t1 -> clean t2 -> clean (t1 ++ t2).
Proof. unfold clean. rewrite Forall_app. auto. Qed.

Lemma clean_one (rq : request) : clean [(rq, None)].
Proof. repeat constructor. Qed.

Lemma clean_no_failure (tr : list entry) (rq : request) (e : exn) :
  clean tr -> (rq, Some e) ∈ tr -> False.
Proof.
  unfold clean. rewrite Forall_forall. intros H Hin.
  specialize (H _ Hin). discriminate.
Qed.

Lemma fail_last_unique {A} (r : result A) (tr : list entry) rq e :
  fail_last r tr -> (rq, Some e) ∈ tr -> r = Raise e.
Proof.
  intros [Hc | (tr0 & rq' & e' & -> & Hc & ->)] Hin.
  - destruct (clean_no_failure _ _ _ Hc Hin).
  - apply elem_of_app in Hin as [Hin | Hin].
    + destruct (clean_no_failure _ _ _ Hc Hin).
    + apply list_elem_of_singleton in Hin. congruence.
Qed.

(** One request extends the trace by its own entry. *)
Lemma request_trace {A} (rq : request) (f : W -> result A * W)
    (n : Net W) :
  trace (snd (request_ rq f n)) = trace n ++ [(rq, outcome (fst (request_ rq f n)))].
Proof. unfold request_. destruct (f (world n)). reflexivity. Qed.

Lemma request_fail_last {A} (rq : request) (f : W -> result A * W)
    (n : Net W) :
  exists tr, trace (snd (request_ rq f n)) = trace n ++ tr /\
             fail_last (fst (request_ rq f n)) tr /\
             (forall a, fst (request_ rq f n) = Ok a -> clean tr).
Proof.
  eexists. split; [apply request_trace |].
  destruct (fst (request_ rq f n)) as [a | e]; simpl.
  - split; [left; apply clean_one | intros; apply clean_one].
  - split; [| discriminate].
    right. exists [], rq, e. repeat split. apply clean_nil.
Qed.

(** Running a computation after a clean prefix. *)
Lemma fail_last_bind {A B} (m : M (Net W) A) (k : A -> M (Net W) B)
    (n : Net W) :
  (exists tr, trace (snd (m n)) = trace n ++ tr /\ fail_last (fst (m n)) tr /\
              (forall a, fst (m n) = Ok a -> clean tr)) ->
  (forall a n1, exists tr, trace (snd (k a n1)) = trace n1 ++ tr /\
                         fail_last (fst (k a n1)) tr /\
                         (forall b, fst (k a n1) = Ok b -> clean tr)) ->
  exists tr, trace (snd (bind m k n)) = trace n ++ tr /\
             fail_last (fst (bind m k n)) tr /\
             (forall b, fst (bind m k n) = Ok b -> clean tr).
Proof.
  intros (tr1 & Ht1 & Hf1 & Hc1) Hk. unfold bind.
  destruct (m n) as [[a | e] n1] eqn:Em; simpl in *.
  - destruct (Hk a n1) as (tr2 & Ht2 & Hf2 & Hc2).
    exists (tr1 ++ tr2). rewrite app_assoc, <- Ht1. split; [exact Ht2 |].
    specialize (Hc1 a eq_refl). split.
    + destruct Hf2 as [Hc | (tr0 & rq & e & -> & Hc & He)].
      * left. by apply clean_app.
      * right. exists (tr1 ++ tr0), rq, e.
        rewrite app_assoc. repeat split; [by apply clean_app | exact He].
    + intros b Hb. apply clean_app; eauto.
  - exists tr1. split; [exact Ht1 |]. split; [| discriminate].
    destruct Hf1 as [Hc | (tr0 & rq & e' & -> & Hc & He)].
    + by left.
    + right. exists tr0, rq, e'. injection He as ->. auto.
Qed.

Lemma fail_last_pure {A} (r : result A) (n : Net W) :
  exists tr, trace (snd (of_result r n)) = trace n ++ tr /\
             fail_last (fst (of_result r n)) tr /\
             (forall a, fst (of_result r n) = Ok a -> clean tr).
Proof.
  exists []. rewrite app_nil_r. repeat split.
  - left. apply clean_nil.
  - intros. apply clean_nil.
Qed.

Lemma fail_last_ret {A} (a : A) (n : Net W) :
  exists tr, trace (snd (ret a n)) = trace n ++ tr /\
             fail_last (fst (ret a n)) tr /\
             (forall a', fst (ret a n) = Ok a' -> clean tr).
Proof. apply (fail_last_pure (Ok a)). Qed.

Lemma into_id_set_step_trace (result : gset Z) (chat : chat_ref) (n : Net W) :
  exists tr,
    trace (snd (into_id_set_step get_peer_id client result chat n)) = trace n ++ tr /\
    fail_last (fst (into_id_set_step get_peer_id client result chat n)) tr /\
    (forall a, fst (into_id_set_step get_peer_id client result chat n) = Ok a ->
               clean tr).
Proof.
  assert (Hlookup : forall n,
    exists tr,
      trace (snd ((chat' <- call_get_input_entity client chat ;;
                   chat' <- (if isinstance_InputPeerSelf chat'
                             then call_get_me client else ret chat') ;;
                   i <- of_result (get_peer_id (Some chat')) ;;
                   ret (result ∪ {[ i ]})) n)) = trace n ++ tr /\
      fail_last (fst ((chat' <- call_get_input_entity client chat ;;
                   chat' <- (if isinstance_InputPeerSelf chat'
                             then call_get_me client else ret chat') ;;
                   i <- of_result (get_peer_id (Some chat')) ;;
                   ret (result ∪ {[ i ]})) n)) tr /\
      (forall a, fst ((chat' <- call_get_input_entity client chat ;;
                   chat' <- (if isinstance_InputPeerSelf chat'
                             then call_get_me client else ret chat') ;;
                   i <- of_result (get_peer_id (Some chat')) ;;
                   ret (result ∪ {[ i ]})) n) = Ok a -> clean tr)).
  { intros n0. apply fail_last_bind; [apply request_fail_last |].
    intros a n1. apply fail_last_bind.
    - destruct (isinstance_InputPeerSelf a);
        [apply request_fail_last | apply fail_last_ret].
    - intros a2 n2. apply fail_last_bind; [apply fail_last_pure |].
      intros; apply fail_last_ret. }
  unfold into_id_set_step. destruct chat as [k | o | s].
  - destruct (k <? 0); [apply fail_last_ret |].
    repeat (apply fail_last_bind; [apply fail_last_pure | intros]).
    apply fail_last_ret.
  - destruct (SUBCLASS_OF_ID o =? 0x2d45687); [| apply Hlookup].
    apply fail_last_bind; [apply fail_last_pure | intros].
    apply fail_last_ret.
  - apply Hlookup.
Qed.

Lemma into_id_set_loop_trace (l : list chat_ref) (result : gset Z) (n : Net W) :
  exists tr,
    trace (snd (into_id_set_loop get_peer_id client l result n)) = trace n ++ tr /\
    fail_last (fst (into_id_set_loop get_peer_id client l result n)) tr /\
    (forall a, fst (into_id_set_loop get_peer_id client l result n) = Ok a ->
               clean tr).
Proof.
  revert result n. induction l as [| chat rest IH]; intros result n; simpl.
  - apply fail_last_ret.
  - apply fail_last_bind; [apply into_id_set_step_trace |].
    intros a n1. apply IH.
Qed.

Lemma into_id_set_trace (cs : chats_val) (n : Net W) :
  exists tr,
    trace (snd (_into_id_set get_peer_id client cs n)) = trace n ++ tr /\
    fail_last (fst (_into_id_set get_peer_id client cs n)) tr.
Proof.
  assert (H : forall l,
    exists tr,
      trace (snd ((result <- into_id_set_loop get_peer_id client l ∅ ;;
                   ret (Some result)) n)) = trace n ++ tr /\
      fail_last (fst ((result <- into_id_set_loop get_peer_id client l ∅ ;;
                   ret (Some result)) n)) tr).
  { intros l.
    destruct (fail_last_bind (into_id_set_loop get_peer_id client l ∅)
                (fun result => ret (Some result)) n) as (tr & ? & ? & _).
    - apply into_id_set_loop_trace.
    - intros; apply fail_last_ret.
    - eauto. }
  unfold _into_id_set. destruct cs; try apply H.
  exists []. rewrite app_nil_r. split; [reflexivity |]. left. apply clean_nil.
Qed.

(** C6: when a lookup made by [_into_id_set] for the builder's chats
    raises, [_into_id_set] ends with that exception, [resolve] ends with
    it too, and the builder is left as it was: neither [chats] nor
    [_self_id] has been assigned. *)
Theorem resolve_failure_atomic (b : EventBuilder) (n : Net W)
    (tr : list entry) (rq : request) (e : exn) :
  trace (snd (_into_id_set get_peer_id client (chats b) n)) = trace n ++ tr ->
  (rq, Some e) ∈ tr ->
  fst (_into_id_set get_peer_id client (chats b) n) = Raise e /\
  resolve get_peer_id client (b, n) =
    (Raise e, (b, snd (_into_id_set get_peer_id client (chats b) n))).
Proof.
  intros Htr Hin.
  destruct (into_id_set_trace (chats b) n) as (tr' & Htr' & Hfl).
  rewrite Htr in Htr'. apply app_inv_head in Htr'. subst tr'.
  pose proof (fail_last_unique _ _ _ _ Hfl Hin) as Hr.
  split; [exact Hr |].
  unfold resolve, bind, self, lift_net. simpl.
  destruct (_into_id_set get_peer_id client (chats b) n) as [r n'].
  simpl in Hr. subst r. reflexivity.
Qed.

(** One integer reference, anywhere in [chats]: a negative one adds
    itself, a non-negative one adds its three encodings, and no request
    is made. *)
Lemma into_id_set_step_int (eu eg ech : Z -> Z) (result : gset Z) (k : Z)
    (n : Net W) :
  (0 <= k -> encoded get_peer_id eu eg ech k) ->
  into_id_set_step get_peer_id client result (RefInt k) n =
    (Ok (result ∪ contribution eu eg ech k), n).
Proof.
  intros H. unfold into_id_set_step, contribution.
  destruct (k <? 0) eqn:Hk; [reflexivity |].
  apply Z.ltb_ge in Hk. destruct (H Hk) as (Hu & Hg & Hch).
  unfold bind, of_result. rewrite Hu, Hg, Hch. reflexivity.
Qed.

Lemma into_id_set_loop_ints (eu eg ech : Z -> Z) (ks : list Z)
    (result : gset Z) (n : Net W) :
  (forall k, k ∈ ks -> 0 <= k -> encoded get_peer_id eu eg ech k) ->
  into_id_set_loop get_peer_id client (RefInt <$> ks) result n =
    (Ok (result ∪ ⋃ (contribution eu eg ech <$> ks)), n).
Proof.
  revert result. induction ks as [| k ks IH]; intros result H.
  - cbn. unfold ret. by rewrite (right_id_L ∅ (∪)).
  - change (into_id_set_loop get_peer_id client (RefInt <$> k :: ks) result n)
      with (bind (into_id_set_step get_peer_id client result (RefInt k))
              (fun r => into_id_set_loop get_peer_id client (RefInt <$> ks) r) n).
    unfold bind. rewrite (into_id_set_step_int eu eg ech).
    + rewrite IH.
      * rewrite fmap_cons, union_list_cons. by rewrite (assoc_L (∪)).
      * intros k' Hk'. apply H. by right.
    + apply H. by left.
Qed.

Lemma into_id_set_ints (eu eg ech : Z -> Z) (ks : list Z) (n : Net W) :
  (forall k, k ∈ ks -> 0 <= k -> encoded get_peer_id eu eg ech k) ->
  _into_id_set get_peer_id client (CList (RefInt <$> ks)) n =
    (Ok (Some (⋃ (contribution eu eg ech <$> ks))), n).
Proof.
  intros H. unfold _into_id_set, bind. cbn [iterable].
  rewrite (into_id_set_loop_ints eu eg ech ks ∅ n H).
  unfold ret. by rewrite (left_id_L ∅ (∪)).
Qed.

Lemma size_three (a b c : Z) :
  a <> b -> a <> c -> b <> c -> size ({[ a; b; c ]} : gset Z) = 3%nat.
Proof.
  intros Hab Hac Hbc.
  rewrite !size_union.
  - rewrite !size_singleton. reflexivity.
  - apply disjoint_singleton_l. by apply not_elem_of_singleton.
  - apply disjoint_singleton_r. intros Hin.
    apply elem_of_union in Hin as [Hin | Hin];
      apply elem_of_singleton in Hin; congruence.
Qed.

(** C5: in chat-set resolution a negative integer contributes itself and
    a non-negative integer contributes its encodings as a user, as a
    basic group and as a channel: this holds for each integer reference
    on its own and for a list of integers as a whole.  So [[-100]] gives
    [{-100}], and [[42]] gives the set of the three encodings of 42, of
    three elements when the encodings differ. *)
Theorem into_id_set_integers (eu eg ech : Z -> Z) (ks : list Z) (n : Net W) :
  (forall k, k ∈ ks -> 0 <= k -> encoded get_peer_id eu eg ech k) ->
  encoded get_peer_id eu eg ech 42 ->
  (forall k result, k ∈ ks ->
     into_id_set_step get_peer_id client result (RefInt k) n =
       (Ok (result ∪ (if k <? 0 then {[ k ]} else {[ eu k; eg k; ech k ]})), n)) /\
  _into_id_set get_peer_id client (CList (RefInt <$> ks)) n =
    (Ok (Some (⋃ (contribution eu eg ech <$> ks))), n) /\
  _into_id_set get_peer_id client (CList [RefInt (-100)]) n =
    (Ok (Some {[ -100 ]}), n) /\
  _into_id_set get_peer_id client (CList [RefInt 42]) n =
    (Ok (Some {[ eu 42; eg 42; ech 42 ]}), n) /\
  (eu 42 <> eg 42 -> eu 42 <> ech 42 -> eg 42 <> ech 42 ->
   size ({[ eu 42; eg 42; ech 42 ]} : gset Z) = 3%nat).
Proof.
  intros H H42. split; [| split; [| split; [| split]]].
  - intros k result Hk. apply (into_id_set_step_int eu eg ech).
    intros Hk0. by apply H.
  - by apply into_id_set_ints.
  - change [RefInt (-100)] with (RefInt <$> [-100]).
    rewrite (into_id_set_ints eu eg ech [-100] n).
    + cbn. by rewrite (right_id_L ∅ (∪)).
    + intros k Hk. apply list_elem_of_singleton in Hk. lia.
  - change [RefInt 42] with (RefInt <$> [42]).
    rewrite (into_id_set_ints eu eg ech [42] n).
    + cbn. by rewrite (right_id_L ∅ (∪)).
    + intros k Hk. apply list_elem_of_singleton in Hk. by subst k.
  - apply size_three.
Qed.

End Resolver.

Lemma resolve_failure_atomic_witness :
  let b := {| chats := CList [RefInt 5; RefStr "nobody"];
              blacklist_chats := false; _self_id := None |} in
  resolve sample_peer_id lonely_client (b, fresh_net) =
    (Raise ValueError,
     (b, {| world := tt;
            trace := [(GetInputEntity (RefStr "nobody"), Some ValueError)] |})).
Proof.
  intros b.
  destruct (resolve_failure_atomic sample_peer_id lonely_client b fresh_net
              [(GetInputEntity (RefStr "nobody"), Some ValueError)]
              (GetInputEntity (RefStr "nobody")) ValueError) as [_ H].
  - reflexivity.
  - apply list_elem_of_singleton. reflexivity.
  - exact H.
Defined.

Lemma sample_encoded (k : Z) :
  encoded sample_peer_id (fun i => i) Z.opp (fun i => - (1000000000000 + i)) k.
Proof. repeat split. Qed.

Lemma into_id_set_integers_witness :
  _into_id_set sample_peer_id lonely_client (CList [RefInt (-100)]) fresh_net =
    (Ok (Some {[ -100 ]}), fresh_net) /\
  _into_id_set sample_peer_id lonely_client (CList [RefInt 42]) fresh_net =
    (Ok (Some {[ 42; -42; -1000000000042 ]}), fresh_net) /\
  size ({[ 42; -42; -1000000000042 ]} : gset Z) = 3%nat.
Proof.
  destruct (into_id_set_integers sample_peer_id lonely_client
              (fun i => i) Z.opp (fun i => - (1000000000000 + i))
              [-100; 42] fresh_net
              (fun k _ _ => sample_encoded k) (sample_encoded 42))
    as (_ & _ & H100 & H42 & Hsize).
  split; [exact H100 |]. split; [exact H42 |].
  apply Hsize; lia.
Defined.

Section Events.

Context {W : Type}.
Variable get_peer_id : option TLObject -> result Z.

(** ** Lazy resolution of the chat *)

(** C4: on an event whose peer is not a channel and whose message ID is
    set, when the direct [get_input_entity] raises [ValueError], the
    access to [input_chat] fetches that message and nothing else: it
    adopts the message's chat and input chat and returns the latter (if
    the fetch raises or finds no message, that exception goes to the
    caller); [iter_dialogs] is not called. *)
Theorem input_chat_via_message (ev : EventCommon W) (n : Net W)
    (c : TelegramClient W) (p : TLObject) (mid : Z) (w1 : W) :
  _input_chat ev = None ->
  _chat_peer ev = Some p ->
  _client ev = Some c ->
  isinstance_PeerChannel (Some p) = false ->
  _message_id ev = Some mid ->
  get_input_entity c (RefTL p) (world n) = (Raise ValueError, w1) ->
  let rm := fst (get_messages c mid w1) in
  let n2 := {| world := snd (get_messages c mid w1);
               trace := trace n ++ [(GetInputEntity (RefTL p), Some ValueError);
                                    (GetMessages mid, outcome rm)] |} in
  await (input_chat get_peer_id) (ev, n) =
    match rm with
    | Ok (Some m) =>
        (Ok (Message._input_chat m),
         (set_input_chat (Message._input_chat m)
            (set_chat (Message._chat m) ev), n2))
    | Ok None => (Raise AttributeError, (ev, n2))
    | Raise e => (Raise e, (ev, n2))
    end.
Proof.
  intros Hic Hp Hc Hch Hm Hg rm n2. subst rm n2.
  run_method.
  destruct (get_messages c mid w1) as [[[m|]|e] w2]; run_method;
    rewrite <- app_assoc; reflexivity.
Qed.

Lemma adopt_adopt (d d' : Dialog.t) (ev : EventCommon W) :
  adopt d (adopt d' ev) = adopt d ev.
Proof. reflexivity. Qed.

Lemma last_cons_match {A} (x : A) (l : list A) :
  last (x :: l) = match last l with Some y => Some y | None => Some x end.
Proof.
  revert x. induction l as [| y l IH]; intros x; [reflexivity |].
  change (last (x :: y :: l)) with (last (y :: l)).
  rewrite IH. by destruct (last l).
Qed.

Lemma last_match_cons (target : Z) (d : Dialog.t) (ds : list Dialog.t) :
  last_match target (d :: ds) =
    if Dialog.id d =? target then
      match last_match target ds with Some d' => Some d' | None => Some d end
    else last_match target ds.
Proof.
  unfold last_match, matching. cbn [List.filter].
  destruct (Dialog.id d =? target); [| reflexivity].
  apply last_cons_match.
Qed.

(** The loop goes through all of [ds]; each dialog with the target ID
    overwrites what the previous one left. *)
Lemma for_each_scan (target : Z) (ds : list Dialog.t) (ev : EventCommon W)
    (n : Net W) :
  for_each ds (scan_body target) (ev, n) =
    (Ok tt,
     (match last_match target ds with Some d => adopt d ev | None => ev end,
      {| world := world n; trace := trace n ++ yielded ds |})).
Proof.
  revert ev n. induction ds as [| d ds IH]; intros ev n.
  - cbn. unfold ret. rewrite app_nil_r. by destruct n.
  - cbn [for_each]. unfold_method. unfold scan_body at 1.
    rewrite last_match_cons.
    destruct (Dialog.id d =? target) eqn:Hd; unfold_method; rewrite IH;
      cbn [world trace yielded fmap list_fmap]; rewrite <- app_assoc;
      cbn [app]; [| reflexivity].
    by destruct (last_match target ds).
Qed.

Lemma single_match (target : Z) (ds : list Dialog.t) :
  (length (matching target ds) <= 1)%nat ->
  last_match target ds = first_match target ds.
Proof.
  unfold last_match, first_match.
  destruct (matching target ds) as [| d [| d' l]]; simpl; [done | done | lia].
Qed.

(** The dialog scan on any sequence of dialogs: on a channel peer, or
    without a message ID, when the direct [get_input_entity] raises
    [ValueError], the access to [input_chat] goes through the whole
    sequence until the generator is exhausted, and the event ends with
    the chat and input chat of the last dialog whose ID is the target;
    when at most one dialog has that ID this is also the first one. *)
Theorem input_chat_via_dialogs (ev : EventCommon W) (n : Net W)
    (c : TelegramClient W) (p : TLObject) (target : Z)
    (ds : list Dialog.t) (w1 w2 : W) :
  _input_chat ev = None ->
  _chat_peer ev = Some p ->
  _client ev = Some c ->
  isinstance_PeerChannel (Some p) = true \/ _message_id ev = None ->
  get_input_entity c (RefTL p) (world n) = (Raise ValueError, w1) ->
  get_peer_id (Some p) = Ok target ->
  iter_dialogs c w1 = ((ds, None), w2) ->
  let ev' :=
    match last_match target ds with Some d => adopt d ev | None => ev end in
  await (input_chat get_peer_id) (ev, n) =
    (Ok (_input_chat ev'),
     (ev', {| world := w2;
              trace := trace n ++
                [(GetInputEntity (RefTL p), Some ValueError);
                 (IterDialogs, None)] ++
                yielded ds ++ [(Anext None, None)] |})) /\
  ((length (matching target ds) <= 1)%nat ->
   last_match target ds = first_match target ds).
Proof.
  intros Hic Hp Hc Hsel Hg Ht Hd ev'. split; [| apply single_match].
  assert (Hscan :
    (if negb (isinstance_PeerChannel (Some p))
     then match _message_id ev with Some _ => false | None => true end
     else true) = true).
  { destruct Hsel as [-> | ->]; [reflexivity |].
    by destruct (isinstance_PeerChannel (Some p)). }
  subst ev'. run_method.
  destruct (isinstance_PeerChannel (Some p)), (_message_id ev);
    try discriminate Hscan; run_method; rewrite for_each_scan;
    simpl_state; rewrite <- !app_assoc; reflexivity.
Qed.

(** *** The caches *)

(** A method that ends with [return self.<field>] returns the field of
    the state it leaves. *)
Lemma returns_field {X N A B} (m : M (X * N) A) (g : X -> B)
    (s s' : X * N) (r : B) :
  (m ;;; this <- self ;; ret (g this)) s = (Ok r, s') -> r = g (fst s').
Proof.
  unfold bind, self, ret. destruct (m s) as [[a | e] s1]; [| discriminate].
  by intros [= <- <-].
Qed.

Lemma input_chat_returns_field (s s' : Ev W) (r : option TLObject) :
  await (input_chat get_peer_id) s = (Ok r, s') -> r = _input_chat (fst s').
Proof. apply returns_field. Qed.

(** With a cached input chat the access is a read: same value, same
    event, and nothing asked from the client. *)
Lemma input_chat_cached (ev : EventCommon W) (n : Net W) (v : TLObject) :
  _input_chat ev = Some v ->
  await (input_chat get_peer_id) (ev, n) = (Ok (Some v), (ev, n)).
Proof. intros H. by run_method. Qed.

Lemma chat_cached (ev : EventCommon W) (n : Net W) (v : Entity) :
  _chat ev = Some v ->
  await (chat get_peer_id) (ev, n) = (Ok (Some v), (ev, n)).
Proof. intros H. by run_method. Qed.

Lemma chat_returns_field (s s' : Ev W) (r : option Entity) :
  await (chat get_peer_id) s = (Ok r, s') -> r = _chat (fst s').
Proof.
  assert (H : match await (chat get_peer_id) s with
              | (Ok r, s') => r = _chat (fst s')
              | _ => True
              end).
  { destruct s as [ev n]. run_method. repeat (case_step; run_method); done. }
  intros E. by rewrite E in H.
Qed.

(** [input_chat] assigns [_input_chat] and [_chat] only. *)
Lemma input_chat_frame (s : Ev W) :
  _chat_peer (fst (snd (await (input_chat get_peer_id) s))) = _chat_peer (fst s) /\
  _client (fst (snd (await (input_chat get_peer_id) s))) = _client (fst s).
Proof.
  destruct s as [ev n]. run_method.
  repeat (case_step; run_method; try rewrite for_each_scan); done.
Qed.

(** [chat] never assigns [_input_chat]. *)
Lemma chat_frame (s : Ev W) :
  _input_chat (fst (snd (await (chat get_peer_id) s))) = _input_chat (fst s).
Proof.
  destruct s as [ev n]. run_method. repeat (case_step; run_method); done.
Qed.

(** An access without a cached value, on an event that has a chat peer
    and a client, starts by asking the client for the input entity. *)
Lemma input_chat_uncached_asks (ev : EventCommon W) (n : Net W)
    (c : TelegramClient W) (p : TLObject) :
  _input_chat ev = None ->
  _chat_peer ev = Some p ->
  _client ev = Some c ->
  exists tr,
    trace (snd (snd (await (input_chat get_peer_id) (ev, n)))) =
      trace n ++
      (GetInputEntity (RefTL p),
       outcome (fst (get_input_entity c (RefTL p) (world n)))) :: tr.
Proof.
  intros Hic Hp Hc. run_method.
  repeat (case_step; run_method; try rewrite for_each_scan);
    simpl_state; rewrite <- ?app_assoc; cbn [app]; eauto.
Qed.

(** Repeated reads: once an access to [input_chat] has returned a
    value, each access that follows it directly returns that value and
    leaves the whole state as it is: the event, the client's world and
    the trace, to which no request is added.  The same holds for
    [chat]. *)
Theorem cached_access_idempotent :
  (forall (s s' : Ev W) (v : TLObject),
      await (input_chat get_peer_id) s = (Ok (Some v), s') ->
      forall k : nat,
        await (input_chat get_peer_id)
              (again (await (input_chat get_peer_id)) k s') =
          (Ok (Some v), s')) /\
  (forall (s s' : Ev W) (v : Entity),
      await (chat get_peer_id) s = (Ok (Some v), s') ->
      forall k : nat,
        await (chat get_peer_id) (again (await (chat get_peer_id)) k s') =
          (Ok (Some v), s')).
Proof.
  split; intros s s' v H k.
  - apply input_chat_returns_field in H. destruct s' as [ev' n'].
    assert (Hfix : await (input_chat get_peer_id) (ev', n') =
                   (Ok (Some v), (ev', n')))
      by (by apply input_chat_cached).
    induction k as [| k IH]; cbn [again]; [exact Hfix |].
    rewrite Hfix. exact IH.
  - apply chat_returns_field in H. destruct s' as [ev' n'].
    assert (Hfix : await (chat get_peer_id) (ev', n') =
                   (Ok (Some v), (ev', n')))
      by (by apply chat_cached).
    induction k as [| k IH]; cbn [again]; [exact Hfix |].
    rewrite Hfix. exact IH.
Qed.

(** The cached input chat survives reads of either property, whatever
    their order and outcome. *)
Lemma input_chat_cache_stable (s : Ev W) (v : TLObject) (l : list access) :
  _input_chat (fst s) = Some v ->
  await (input_chat get_peer_id) (after_accesses get_peer_id l s) =
    (Ok (Some v), after_accesses get_peer_id l s).
Proof.
  revert s. induction l as [| a l IH]; intros [ev n] H.
  - by apply input_chat_cached.
  - cbn [after_accesses fold_left]. apply IH. destruct a; cbn [after_access].
    + by rewrite (input_chat_cached ev n v H).
    + by rewrite chat_frame.
Qed.

(** Once both caches are filled, reads of either property change
    nothing. *)
Lemma caches_stable (ev : EventCommon W) (n : Net W) (v : TLObject)
    (e : Entity) (l : list access) :
  _input_chat ev = Some v ->
  _chat ev = Some e ->
  after_accesses get_peer_id l (ev, n) = (ev, n).
Proof.
  intros Hv He. induction l as [| a l IH]; [reflexivity |].
  cbn [after_accesses fold_left]. destruct a; cbn [after_access].
  - by rewrite (input_chat_cached ev n v Hv).
  - by rewrite (chat_cached ev n e He).
Qed.

(** C8 (as the code has it): when an access to [input_chat] on an event
    with a chat peer and a client ends with [None], the field is still
    [None], which is also what "not resolved yet" looks like: the next
    access asks the client for the input entity again. *)
Theorem input_chat_absent_retried (ev ev' : EventCommon W) (n n' : Net W)
    (c : TelegramClient W) (p : TLObject) :
  _chat_peer ev = Some p ->
  _client ev = Some c ->
  await (input_chat get_peer_id) (ev, n) = (Ok None, (ev', n')) ->
  _input_chat ev' = None /\
  exists tr,
    trace (snd (snd (await (input_chat get_peer_id) (ev', n')))) =
      trace n' ++
      (GetInputEntity (RefTL p),
       outcome (fst (get_input_entity c (RefTL p) (world n')))) :: tr.
Proof.
  intros Hp Hc H.
  pose proof (input_chat_frame (ev, n)) as [Hp' Hc'].
  rewrite H in Hp', Hc'. cbn [fst snd] in Hp', Hc'.
  apply input_chat_returns_field in H. cbn [fst] in H.
  split; [done |].
  apply input_chat_uncached_asks; congruence.
Qed.

(** C2 (what the code does instead): with no input chat, no cached chat
    and no entry for the peer in [_entities], an access to [chat] goes
    past the test on [self.input_chat], looks the peer up in
    [_entities], and calls [get_entity] on the client with [None]. *)
Theorem chat_without_input_chat (ev : EventCommon W) (n : Net W)
    (c : TelegramClient W) (p : TLObject) (i : Z) :
  _input_chat ev = None ->
  _chat ev = None ->
  _chat_peer ev = Some p ->
  _client ev = Some c ->
  get_peer_id (Some p) = Ok i ->
  _entities ev !! i = None ->
  await (chat get_peer_id) (ev, n) =
    let r := fst (get_entity c None (world n)) in
    let n' := {| world := snd (get_entity c None (world n));
                 trace := trace n ++ [(GetEntity None, outcome r)] |} in
    match r with
    | Ok e => (Ok (Some e), (set_chat (Some e) (set_chat None ev), n'))
    | Raise x => (Raise x, (set_chat None ev, n'))
    end.
Proof.
  intros Hic Hch Hp Hc Hi He. run_method.
  destruct (get_entity c None (world n)) as [[e | x] w']; reflexivity.
Qed.

End Events.

(** On a sequence in which two different dialogs come under one ID,
    the event keeps the second one. *)
Lemma input_chat_keeps_last_of_different :
  first_match (-1000000000005) twin_dialogs = Some first_twin /\
  fst (await (input_chat sample_peer_id) (channel_event, fresh_net)) <>
    Ok (Some (Dialog.input_entity first_twin)) /\
  _chat (fst (snd (await (input_chat sample_peer_id)
                     (channel_event, fresh_net)))) <>
    Some (Dialog.entity first_twin).
Proof. repeat split; vm_compute; discriminate. Qed.

Lemma input_chat_via_dialogs_witness :
  await (input_chat sample_peer_id) (channel_event, fresh_net) =
    (Ok (Some (InputPeerChannel 5 22)),
     (adopt second_twin channel_event,
      {| world := tt;
         trace := [(GetInputEntity (RefTL (PeerChannel 5)), Some ValueError);
                   (IterDialogs, None)] ++
                  yielded twin_dialogs ++ [(Anext None, None)] |})).
Proof.
  apply (input_chat_via_dialogs sample_peer_id channel_event fresh_net
           twin_client (PeerChannel 5) (-1000000000005) twin_dialogs tt tt);
    try reflexivity.
  left. reflexivity.
Defined.

Lemma input_chat_via_message_witness :
  await (input_chat sample_peer_id) (user_event, fresh_net) =
    (Ok (Some (InputPeerUser 5 1)),
     (set_input_chat (Some (InputPeerUser 5 1))
        (set_chat (Some (User 5 "from message")) user_event),
      {| world := tt;
         trace := [(GetInputEntity (RefTL (PeerUser 5)), Some ValueError);
                   (GetMessages 9, None)] |})).
Proof.
  apply (input_chat_via_message sample_peer_id user_event fresh_net
           twin_client (PeerUser 5) 9 tt); reflexivity.
Defined.

Lemma cached_access_idempotent_witness :
  let s1 := snd (await (input_chat sample_peer_id) (user_event, fresh_net)) in
  await (input_chat sample_peer_id)
        (again (await (input_chat sample_peer_id)) 2 s1) =
    (Ok (Some (InputPeerUser 5 1)), s1) /\
  await (chat sample_peer_id) (again (await (chat sample_peer_id)) 2 s1) =
    (Ok (Some (User 5 "from message")), s1).
Proof.
  intros s1.
  destruct (@cached_access_idempotent unit sample_peer_id) as [Hi Hc].
  split.
  - apply (Hi (user_event, fresh_net)). reflexivity.
  - apply (Hc s1). reflexivity.
Defined.

(** C8, as stated, fails: after an access that ended with [None], the
    next access sends requests again. *)
Lemma input_chat_absent_cached_counterexample :
  let s1 := snd (await (input_chat sample_peer_id) (lonely_event, fresh_net)) in
  fst (await (input_chat sample_peer_id) (lonely_event, fresh_net)) = Ok None /\
  trace (snd (snd (await (input_chat sample_peer_id) s1))) <> trace (snd s1) /\
  trace (snd (snd (await (input_chat sample_peer_id) s1))) =
    trace (snd s1) ++
    [(GetInputEntity (RefTL (PeerUser 1)), Some ValueError);
     (IterDialogs, None); (Anext None, None)].
Proof. repeat split; vm_compute; discriminate. Qed.

Lemma input_chat_absent_retried_witness :
  let s1 := snd (await (input_chat sample_peer_id) (lonely_event, fresh_net)) in
  _input_chat (fst s1) = None /\
  exists tr,
    trace (snd (snd (await (input_chat sample_peer_id) s1))) =
      trace (snd s1) ++
      (GetInputEntity (RefTL (PeerUser 1)), Some ValueError) :: tr.
Proof.
  intros s1.
  apply (input_chat_absent_retried sample_peer_id lonely_event (fst s1)
           fresh_net (snd s1) lonely_client (PeerUser 1));
    reflexivity.
Defined.

(** C2 at a concrete event: [input_chat] resolves to [None], and the
    access to [chat] that follows asks the client for an entity. *)
Lemma chat_without_input_chat_witness :
  let s1 := snd (await (input_chat sample_peer_id) (lonely_event, fresh_net)) in
  fst (await (input_chat sample_peer_id) (lonely_event, fresh_net)) = Ok None /\
  await (chat sample_peer_id) s1 =
    (Raise TypeError,
     (fst s1,
      {| world := tt;
         trace := trace (snd s1) ++ [(GetEntity None, Some TypeError)] |})).
Proof.
  intros s1. split; [reflexivity |].
  apply (chat_without_input_chat sample_peer_id (fst s1) (snd s1)
           lonely_client (PeerUser 1) 1); reflexivity.
Defined.

(** Also at a concrete event: [input_chat] resolves to [None], and
    [chat] returns an entity it found in [_entities]. *)
Example chat_present_without_input_chat :
  let s1 := snd (await (input_chat sample_peer_id) (local_event, fresh_net)) in
  fst (await (input_chat sample_peer_id) (local_event, fresh_net)) = Ok None /\
  fst (await (chat sample_peer_id) s1) = Ok (Some (User 1 "local")).
Proof. split; reflexivity. Qed.

(** * Further properties *)

(** ** More on chat-set resolution *)

Section ResolverMore.

Context {W : Type}.
Variable get_peer_id : option TLObject -> result Z.
Variable client : TelegramClient W.

Lemma into_id_set_step_local (r : chat_ref) (acc : gset Z) (n : Net W) :
  local_ref r = true ->
  snd (into_id_set_step get_peer_id client acc r n) = n.
Proof.
  intros H. destruct r as [k | o | s]; cbn [local_ref] in H; [| | discriminate].
  - unfold into_id_set_step. destruct (k <? 0); [reflexivity |].
    unfold bind, of_result, ret.
    destruct (get_peer_id (Some (PeerUser k))); [| reflexivity].
    destruct (get_peer_id (Some (PeerChat k))); [| reflexivity].
    by destruct (get_peer_id (Some (PeerChannel k))).
  - unfold into_id_set_step. rewrite H. unfold bind, of_result, ret.
    by destruct (get_peer_id (Some o)).
Qed.

Lemma into_id_set_loop_local (l : list chat_ref) (acc : gset Z) (n : Net W) :
  forallb local_ref l = true ->
  snd (into_id_set_loop get_peer_id client l acc n) = n.
Proof.
  revert acc. induction l as [| r l IH]; intros acc H; [reflexivity |].
  cbn [forallb] in H. apply andb_prop in H as [Hr Hl].
  cbn [into_id_set_loop]. unfold bind.
  pose proof (into_id_set_step_local r acc n Hr) as Hs.
  destruct (into_id_set_step get_peer_id client acc r n) as [[acc' | e] n1];
    cbn [snd] in Hs; subst n1; [by apply IH | reflexivity].
Qed.

(** X1: integers and Peer objects are turned into IDs without the
    client: when [chats] holds nothing else, [_into_id_set] makes no
    request and leaves the client's state alone, whether it returns a set
    or raises. *)
Theorem into_id_set_local_no_request (cs : chats_val) (n : Net W) :
  forallb local_ref (iterable cs) = true ->
  snd (_into_id_set get_peer_id client cs n) = n.
Proof.
  intros H. unfold _into_id_set.
  assert (Hloop : snd ((result <- into_id_set_loop get_peer_id client
                                   (iterable cs) ∅ ;;
                        ret (Some result)) n) = n).
  { unfold bind.
    pose proof (into_id_set_loop_local (iterable cs) ∅ n H) as Hs.
    destruct (into_id_set_loop get_peer_id client (iterable cs) ∅ n)
      as [[acc | e] n1]; exact Hs. }
  destruct cs; [reflexivity | exact Hloop | exact Hloop | exact Hloop].
Qed.

(** What a step adds, and the state it leaves, do not depend on the set
    collected so far. *)
Lemma into_id_set_step_delta (r : chat_ref) (n : Net W) :
  exists (rd : result (gset Z)) (n' : Net W),
    forall acc,
      into_id_set_step get_peer_id client acc r n =
        (match rd with Ok D => Ok (acc ∪ D) | Raise e => Raise e end, n').
Proof.
  assert (Hlookup : exists (rd : result (gset Z)) (n' : Net W),
    forall acc,
      (chat' <- call_get_input_entity client r ;;
       chat' <- (if isinstance_InputPeerSelf chat'
                 then call_get_me client else ret chat') ;;
       i <- of_result (get_peer_id (Some chat')) ;;
       ret (acc ∪ {[ i ]})) n =
      (match rd with Ok D => Ok (acc ∪ D) | Raise e => Raise e end, n')).
  { unfold bind, of_result, ret.
    destruct (call_get_input_entity client r n) as [[ip | e] n1];
      [| by exists (Raise e), n1].
    destruct (isinstance_InputPeerSelf ip).
    - destruct (call_get_me client n1) as [[me | e] n2];
        [| by exists (Raise e), n2].
      destruct (get_peer_id (Some me)) as [i | e];
        [by exists (Ok {[ i ]}), n2 | by exists (Raise e), n2].
    - destruct (get_peer_id (Some ip)) as [i | e];
        [by exists (Ok {[ i ]}), n1 | by exists (Raise e), n1]. }
  destruct r as [k | o | s]; unfold into_id_set_step.
  - destruct (k <? 0); [by exists (Ok {[ k ]}), n |].
    unfold bind, of_result, ret.
    destruct (get_peer_id (Some (PeerUser k))) as [u | e];
      [| by exists (Raise e), n].
    destruct (get_peer_id (Some (PeerChat k))) as [g | e];
      [| by exists (Raise e), n].
    destruct (get_peer_id (Some (PeerChannel k))) as [ch | e];
      [by exists (Ok {[ u; g; ch ]}), n | by exists (Raise e), n].
  - destruct (SUBCLASS_OF_ID o =? 0x2d45687); [| exact Hlookup].
    unfold bind, of_result, ret.
    destruct (get_peer_id (Some o)) as [i | e];
      [by exists (Ok {[ i ]}), n | by exists (Raise e), n].
  - exact Hlookup.
Qed.

Lemma into_id_set_loop_delta (l : list chat_ref) (n : Net W) :
  exists (rd : result (gset Z)) (n' : Net W),
    forall acc,
      into_id_set_loop get_peer_id client l acc n =
        (match rd with Ok D => Ok (acc ∪ D) | Raise e => Raise e end, n').
Proof.
  revert n. induction l as [| r l IH]; intros n.
  - exists (Ok ∅), n. intros acc. cbn. unfold ret.
    by rewrite (right_id_L ∅ (∪)).
  - destruct (into_id_set_step_delta r n) as ([D1 | e] & n1 & Hstep).
    + destruct (IH n1) as ([D2 | e] & n2 & Hloop).
      * exists (Ok (D1 ∪ D2)), n2. intros acc.
        cbn [into_id_set_loop]. unfold bind. rewrite Hstep, Hloop.
        by rewrite (assoc_L (∪)).
      * exists (Raise e), n2. intros acc.
        cbn [into_id_set_loop]. unfold bind. by rewrite Hstep, Hloop.
    + exists (Raise e), n1. intros acc.
      cbn [into_id_set_loop]. unfold bind. by rewrite Hstep.
Qed.

Lemma into_id_set_loop_app (l1 l2 : list chat_ref) (acc : gset Z) (n : Net W) :
  into_id_set_loop get_peer_id client (l1 ++ l2) acc n =
    bind (into_id_set_loop get_peer_id client l1 acc)
         (into_id_set_loop get_peer_id client l2) n.
Proof.
  revert acc n. induction l1 as [| r l1 IH]; intros acc n; [reflexivity |].
  cbn [app into_id_set_loop]. unfold bind.
  destruct (into_id_set_step get_peer_id client acc r n) as [[acc' | e] n1];
    [| reflexivity].
  rewrite IH. reflexivity.
Qed.

Lemma into_id_set_list (l : list chat_ref) (n : Net W) :
  _into_id_set get_peer_id client (CList l) n =
    match into_id_set_loop get_peer_id client l ∅ n with
    | (Ok ids, n') => (Ok (Some ids), n')
    | (Raise e, n') => (Raise e, n')
    end.
Proof.
  unfold _into_id_set, bind, ret. cbn [iterable].
  by destruct (into_id_set_loop get_peer_id client l ∅ n) as [[ids | e] n'].
Qed.

(** X2: resolution is additive over the list: when the first part of
    [chats] resolves to [S1] and the rest, resolved from the state the
    first part left, to [S2], the whole list resolves to [S1 ∪ S2]. *)
Theorem into_id_set_app (l1 l2 : list chat_ref) (n n1 n2 : Net W)
    (S1 S2 : gset Z) :
  _into_id_set get_peer_id client (CList l1) n = (Ok (Some S1), n1) ->
  _into_id_set get_peer_id client (CList l2) n1 = (Ok (Some S2), n2) ->
  _into_id_set get_peer_id client (CList (l1 ++ l2)) n =
    (Ok (Some (S1 ∪ S2)), n2).
Proof.
  rewrite !into_id_set_list, into_id_set_loop_app. unfold bind.
  destruct (into_id_set_loop get_peer_id client l1 ∅ n) as [[S1' | e] n1'];
    [| discriminate].
  intros [= -> ->].
  destruct (into_id_set_loop_delta l2 n1) as (rd & n2' & Hd).
  rewrite (Hd ∅), (Hd S1).
  destruct rd as [D | e]; [| discriminate].
  rewrite (left_id_L ∅ (∪)). by intros [= -> ->].
Qed.

(** X3: resolution stops at the first reference that fails: the
    references after it are not looked at, so the exception and the
    state, trace of requests included, are those of the failing part. *)
Theorem into_id_set_stops_at_failure (l1 l2 : list chat_ref) (n n1 : Net W)
    (e : exn) :
  _into_id_set get_peer_id client (CList l1) n = (Raise e, n1) ->
  _into_id_set get_peer_id client (CList (l1 ++ l2)) n = (Raise e, n1).
Proof.
  rewrite !into_id_set_list, into_id_set_loop_app. unfold bind.
  destruct (into_id_set_loop get_peer_id client l1 ∅ n) as [[S1' | e'] n1'];
    [discriminate |].
  by intros [= -> ->].
Qed.

(** What a run of [resolve] can end in, from the result of
    [_into_id_set] on the builder's chats. *)
Lemma resolve_cases (b : EventBuilder) (n : Net W) :
  resolve get_peer_id client (b, n) =
    match _into_id_set get_peer_id client (chats b) n with
    | (Raise e, n1) => (Raise e, (b, n1))
    | (Ok r, n1) =>
        let b1 := set_chats (resolved r) b in
        match get_me client (world n1) with
        | (Raise e, w2) =>
            (Raise e, (b1, {| world := w2;
                              trace := trace n1 ++ [(GetMe, Some e)] |}))
        | (Ok me, w2) =>
            let n2 := {| world := w2;
                         trace := trace n1 ++ [(GetMe, None)] |} in
            match attr_user_id me with
            | Ok i => (Ok tt, (set_self_id i b1, n2))
            | Raise e => (Raise e, (b1, n2))
            end
        end
    end.
Proof.
  unfold resolve, bind, self, lift_net, on_self, modify, of_result,
    call_get_me, request_. cbn [fst snd].
  destruct (_into_id_set get_peer_id client (chats b) n) as [[r | e] n1];
    [| reflexivity].
  cbn [fst snd]. destruct (get_me client (world n1)) as [[me | e] w2];
    [| reflexivity].
  cbn [outcome]. by destruct (attr_user_id me).
Qed.

(** X4: a reference that the client resolves to the "self" marker is
    replaced by the answer of [get_me], and it is that answer which is
    encoded; [resolve] then asks [get_me] once more for [_self_id], so
    the client sees one lookup and two [get_me] requests. *)
Theorem resolve_self_reference (b : EventBuilder) (n : Net W) (r : chat_ref)
    (me1 me2 : TLObject) (i uid : Z) (w1 w2 w3 : W) :
  chats b = CSingle r ->
  local_ref r = false ->
  get_input_entity client r (world n) = (Ok InputPeerSelf, w1) ->
  get_me client w1 = (Ok me1, w2) ->
  get_peer_id (Some me1) = Ok i ->
  get_me client w2 = (Ok me2, w3) ->
  attr_user_id me2 = Ok uid ->
  resolve get_peer_id client (b, n) =
    (Ok tt,
     (set_self_id uid (set_chats (CSet {[ i ]}) b),
      {| world := w3;
         trace := trace n ++ [(GetInputEntity r, None); (GetMe, None);
                              (GetMe, None)] |})).
Proof.
  intros Hc Hr Hg Hm1 Hi Hm2 Hu.
  assert (Hset : _into_id_set get_peer_id client (CSingle r) n =
                 (Ok (Some {[ i ]}),
                  {| world := w2;
                     trace := trace n ++ [(GetInputEntity r, None);
                                          (GetMe, None)] |})).
  { unfold _into_id_set. cbn [iterable into_id_set_loop].
    assert (Hstep : into_id_set_step get_peer_id client ∅ r n =
                    (Ok (∅ ∪ {[ i ]}),
                     {| world := w2;
                        trace := trace n ++ [(GetInputEntity r, None);
                                             (GetMe, None)] |})).
    { destruct r as [k | o | s]; cbn [local_ref] in Hr; [discriminate | |];
        unfold into_id_set_step; rewrite ?Hr;
        unfold bind, call_get_input_entity, call_get_me, request_, of_result,
          ret; rewrite Hg; cbn [isinstance_InputPeerSelf world trace outcome];
        rewrite Hm1, Hi; cbn [outcome]; by rewrite <- app_assoc. }
    unfold bind at 1 2. rewrite Hstep. unfold ret.
    by rewrite (left_id_L ∅ (∪)). }
  unfold resolve, bind, self, lift_net, on_self, modify, of_result,
    call_get_me, request_. cbn [fst snd]. rewrite Hc, Hset.
  cbn [fst snd world trace resolved]. rewrite Hm2, Hu. cbn [outcome].
  by rewrite <- app_assoc.
Qed.

(** X5: an empty list is not "no filter".  A builder made with
    [chats=[]] resolves to the empty set, and then rejects every event in
    whitelist mode and accepts every event in blacklist mode. *)
Theorem empty_chats_filter (b : EventBuilder) (n : Net W) (me : TLObject)
    (uid : Z) (w1 : W) :
  chats b = CList [] ->
  get_me client (world n) = (Ok me, w1) ->
  attr_user_id me = Ok uid ->
  exists b' n',
    resolve get_peer_id client (b, n) = (Ok tt, (b', n')) /\
    chats b' = CSet ∅ /\
    forall (e : EventCommon W) (i : Z),
      get_peer_id (_chat_peer e) = Ok i ->
      _filter_event get_peer_id b' e =
        Ok (if blacklist_chats b then Some e else None).
Proof.
  intros Hc Hm Hu.
  exists (set_self_id uid (set_chats (CSet ∅) b)),
         {| world := w1; trace := trace n ++ [(GetMe, None)] |}.
  split; [| split].
  - rewrite resolve_cases, Hc.
    cbn [_into_id_set iterable into_id_set_loop]. unfold bind, ret.
    cbn zeta. by rewrite Hm, Hu.
  - reflexivity.
  - intros e i Hi. unfold _filter_event.
    cbn [chats set_self_id set_chats blacklist_chats]. rewrite Hi.
    cbn [py_in]. rewrite bool_decide_eq_false_2 by set_solver.
    by destruct (blacklist_chats b).
Qed.

(** X6: resolving a set of IDs again keeps the negative IDs and replaces
    each non-negative ID by its three encodings, without any request; a
    set of negative IDs only is left as it is. *)
Theorem into_id_set_resolved_again (eu eg ech : Z -> Z) (ids : gset Z)
    (n : Net W) :
  (forall k, k ∈ ids -> 0 <= k -> encoded get_peer_id eu eg ech k) ->
  _into_id_set get_peer_id client (CSet ids) n =
    (Ok (Some (⋃ (contribution eu eg ech <$> elements ids))), n) /\
  ((forall k, k ∈ ids -> k < 0) ->
   ⋃ (contribution eu eg ech <$> elements ids) = ids).
Proof.
  intros H. split.
  - unfold _into_id_set, bind. cbn [iterable].
    rewrite (into_id_set_loop_ints get_peer_id client eu eg ech).
    + unfold ret. by rewrite (left_id_L ∅ (∪)).
    + intros k Hk. apply H. by apply elem_of_elements.
  - intros Hneg. apply set_eq. intros x.
    rewrite elem_of_union_list. split.
    + intros (X & HX & Hx). apply list_elem_of_fmap in HX as (k & -> & Hk).
      apply elem_of_elements in Hk. unfold contribution in Hx.
      specialize (Hneg k Hk). apply Z.ltb_lt in Hneg. rewrite Hneg in Hx.
      apply elem_of_singleton in Hx. by subst x.
    + intros Hx. exists {[ x ]}. split; [| by apply elem_of_singleton].
      apply list_elem_of_fmap. exists x. split; [| by apply elem_of_elements].
      unfold contribution. specialize (Hneg x Hx). apply Z.ltb_lt in Hneg.
      by rewrite Hneg.
Qed.

(** X7: a [resolve] that returns leaves the builder ready for use: its
    chats are [None] or a set (what [_into_id_set] returned), its mode is
    untouched, its [_self_id] is set, and [_filter_event] then answers
    every event whose peer has an ID with the event or [None], never with
    an exception. *)
Theorem resolve_then_filter (b b' : EventBuilder) (n n' : Net W) :
  resolve get_peer_id client (b, n) = (Ok tt, (b', n')) ->
  (exists r uid,
     fst (_into_id_set get_peer_id client (chats b) n) = Ok r /\
     chats b' = resolved r /\
     _self_id b' = Some uid /\
     blacklist_chats b' = blacklist_chats b) /\
  (forall (e : EventCommon W) (i : Z),
     get_peer_id (_chat_peer e) = Ok i ->
     _filter_event get_peer_id b' e = Ok (Some e) \/
     _filter_event get_peer_id b' e = Ok None).
Proof.
  rewrite resolve_cases.
  destruct (_into_id_set get_peer_id client (chats b) n) as [[r | e] n1];
    [| discriminate].
  cbn zeta. destruct (get_me client (world n1)) as [[me | e] w2];
    [| discriminate].
  destruct (attr_user_id me) as [uid | e]; [| discriminate].
  intros [= <- <-]. split.
  - exists r, uid. repeat split.
  - intros e i Hi. unfold _filter_event.
    cbn [chats set_self_id set_chats blacklist_chats]. rewrite Hi.
    destruct r as [ids |]; cbn [resolved py_in]; [| by left].
    destruct (Bool.eqb _ _); [by right | by left].
Qed.

(** X8: [resolve] is not atomic past the chat set: when [_into_id_set]
    has returned and [resolve] still raises (at [get_me], or at the
    [user_id] of its answer), the builder already holds the resolved
    chats, with its old [_self_id]. *)
Theorem resolve_fails_after_chats (b b' : EventBuilder) (n n1 n' : Net W)
    (r : option (gset Z)) (e : exn) :
  _into_id_set get_peer_id client (chats b) n = (Ok r, n1) ->
  resolve get_peer_id client (b, n) = (Raise e, (b', n')) ->
  chats b' = resolved r /\
  _self_id b' = _self_id b /\
  blacklist_chats b' = blacklist_chats b /\
  trace n' = trace n1 ++ [(GetMe, outcome (fst (get_me client (world n1))))].
Proof.
  intros Hset. rewrite resolve_cases, Hset. cbn zeta.
  destruct (get_me client (world n1)) as [[me | e'] w2].
  - destruct (attr_user_id me) as [uid | e']; [discriminate |].
    intros [= -> <- <-]. repeat split.
  - intros [= -> <- <-]. repeat split.
Qed.

End ResolverMore.

(** ** More on the filter and the lazy properties *)

Section EventsMore.

Context {W : Type}.
Variable get_peer_id : option TLObject -> result Z.

(** X9: over the same set of IDs the two modes are complementary: every
    event whose peer has an ID passes exactly one of the whitelist
    builder and the blacklist builder. *)
Theorem filter_modes_complement (bw bb : EventBuilder) (e : EventCommon W)
    (ids : gset Z) (i : Z) :
  chats bw = CSet ids ->
  chats bb = CSet ids ->
  blacklist_chats bw = false ->
  blacklist_chats bb = true ->
  get_peer_id (_chat_peer e) = Ok i ->
  (_filter_event get_peer_id bw e = Ok (Some e) /\
   _filter_event get_peer_id bb e = Ok None) \/
  (_filter_event get_peer_id bw e = Ok None /\
   _filter_event get_peer_id bb e = Ok (Some e)).
Proof.
  intros Hw Hb Hmw Hmb Hi. unfold _filter_event.
  rewrite Hw, Hb, Hmw, Hmb, Hi. cbn [py_in].
  destruct (bool_decide (i ∈ ids)); cbn [Bool.eqb]; [by left | by right].
Qed.

(** X10: an event without a chat peer.  [chat_id] is [None] and
    [input_chat] returns its (unset) field, both without consulting
    [get_peer_id] or the client; a builder without chats lets the event
    pass; a builder with a chat set hands [None] to [get_peer_id] and
    raises what it raises, rather than dropping the event. *)
Theorem event_without_chat_peer (ev : EventCommon W) (n : Net W)
    (b : EventBuilder) :
  _chat_peer ev = None ->
  chat_id get_peer_id ev = Ok None /\
  await (input_chat get_peer_id) (ev, n) = (Ok (_input_chat ev), (ev, n)) /\
  (chats b = CNone -> _filter_event get_peer_id b ev = Ok (Some ev)) /\
  (forall x, chats b <> CNone -> get_peer_id None = Raise x ->
             _filter_event get_peer_id b ev = Raise x).
Proof.
  intros Hp. split; [| split; [| split]].
  - unfold chat_id. by rewrite Hp.
  - run_method. destruct (_input_chat ev) eqn:E; cbn [fst snd]; by rewrite E.
  - intros Hc. unfold _filter_event. by rewrite Hc.
  - intros x Hc Hx. unfold _filter_event. rewrite Hp, Hx.
    by destruct (chats b).
Qed.

(** X11: only [ValueError] starts the fallbacks.  When the direct
    [get_input_entity] returns, its answer is cached and returned and
    [_chat] is left alone; when it raises anything else, that exception
    goes to the caller with the event unchanged.  Either way it is the
    only request made. *)
Theorem input_chat_without_fallback (ev : EventCommon W) (n : Net W)
    (c : TelegramClient W) (p : TLObject) (r : result TLObject) (w1 : W) :
  _input_chat ev = None ->
  _chat_peer ev = Some p ->
  _client ev = Some c ->
  get_input_entity c (RefTL p) (world n) = (r, w1) ->
  r <> Raise ValueError ->
  await (input_chat get_peer_id) (ev, n) =
    (match r with Ok ip => Ok (Some ip) | Raise e => Raise e end,
     (match r with Ok ip => set_input_chat (Some ip) ev | Raise _ => ev end,
      {| world := w1;
         trace := trace n ++ [(GetInputEntity (RefTL p), outcome r)] |})).
Proof.
  intros Hic Hp Hc Hg Hr. run_method.
  destruct r as [ip | []]; try reflexivity. by destruct Hr.
Qed.

(** X12: an event that was not given a client cannot resolve anything:
    with a chat peer and no cached input chat, the access raises
    [AttributeError] and changes nothing. *)
Theorem input_chat_needs_client (ev : EventCommon W) (n : Net W)
    (p : TLObject) :
  _input_chat ev = None ->
  _chat_peer ev = Some p ->
  _client ev = None ->
  await (input_chat get_peer_id) (ev, n) = (Raise AttributeError, (ev, n)).
Proof. intros Hic Hp Hc. by run_method. Qed.

(** X13: when the dialog generator raises after yielding [ds], the
    exception goes to the caller, but what the dialogs before it matched
    stays on the event: if one of them had the target ID, the input chat
    is cached although the access raised, and the next access returns it
    without a request. *)
Theorem input_chat_scan_interrupted (ev : EventCommon W) (n : Net W)
    (c : TelegramClient W) (p : TLObject) (target : Z)
    (ds : list Dialog.t) (e : exn) (w1 w2 : W) :
  _input_chat ev = None ->
  _chat_peer ev = Some p ->
  _client ev = Some c ->
  isinstance_PeerChannel (Some p) = true \/ _message_id ev = None ->
  get_input_entity c (RefTL p) (world n) = (Raise ValueError, w1) ->
  get_peer_id (Some p) = Ok target ->
  iter_dialogs c w1 = ((ds, Some e), w2) ->
  let ev' :=
    match last_match target ds with Some d => adopt d ev | None => ev end in
  let n' :=
    {| world := w2;
       trace := trace n ++
         [(GetInputEntity (RefTL p), Some ValueError); (IterDialogs, None)] ++
         yielded ds ++ [(Anext None, Some e)] |} in
  await (input_chat get_peer_id) (ev, n) = (Raise e, (ev', n')) /\
  (forall d, last_match target ds = Some d ->
     await (input_chat get_peer_id) (ev', n') =
       (Ok (Some (Dialog.input_entity d)), (ev', n'))).
Proof.
  intros Hic Hp Hc Hsel Hg Ht Hd ev' n'. split.
  - assert (Hscan :
      (if negb (isinstance_PeerChannel (Some p))
       then match _message_id ev with Some _ => false | None => true end
       else true) = true).
    { destruct Hsel as [-> | ->]; [reflexivity |].
      by destruct (isinstance_PeerChannel (Some p)). }
    subst ev' n'. run_method.
    destruct (isinstance_PeerChannel (Some p)), (_message_id ev);
      try discriminate Hscan; run_method; rewrite for_each_scan;
      simpl_state; rewrite <- !app_assoc; reflexivity.
  - intros d Hl. subst ev'. rewrite Hl. by apply input_chat_cached.
Qed.

(** [chat] assigns [_chat] only, [input_chat] only the two caches. *)
Lemma input_chat_same_setup (s : Ev W) :
  same_setup (fst s) (fst (snd (await (input_chat get_peer_id) s))).
Proof.
  destruct s as [ev n]. unfold same_setup. run_method.
  repeat (case_step; run_method; try rewrite for_each_scan);
    repeat split; cbn; congruence.
Qed.

Lemma chat_same_setup (s : Ev W) :
  same_setup (fst s) (fst (snd (await (chat get_peer_id) s))).
Proof.
  destruct s as [ev n]. unfold same_setup. run_method.
  repeat (case_step; run_method); repeat split; cbn; congruence.
Qed.

Lemma same_setup_refl (e : EventCommon W) : same_setup e e.
Proof. repeat split. Qed.

Lemma same_setup_trans (e1 e2 e3 : EventCommon W) :
  same_setup e1 e2 -> same_setup e2 e3 -> same_setup e1 e3.
Proof. unfold same_setup. intros H1 H2. intuition congruence. Qed.

Lemma after_accesses_same_setup (l : list access) (s : Ev W) :
  same_setup (fst s) (fst (after_accesses get_peer_id l s)).
Proof.
  revert s. induction l as [| a l IH]; intros s; [apply same_setup_refl |].
  cbn [after_accesses fold_left].
  eapply same_setup_trans; [| apply IH].
  destruct a; [apply input_chat_same_setup | apply chat_same_setup].
Qed.

(** X14: reads of the lazy properties, in any number and order and
    whatever they return or raise, change nothing of the event but its
    two caches: the chat peer, the message ID, the client, the entity
    table, the public attributes and the three flags stay as set. *)
Theorem accesses_keep_setup (l : list access) (s : Ev W) :
  let e := fst s in
  let e' := fst (after_accesses get_peer_id l s) in
  _chat_peer e' = _chat_peer e /\
  _message_id e' = _message_id e /\
  _client e' = _client e /\
  _entities e' = _entities e /\
  pattern_match e' = pattern_match e /\
  original_update e' = original_update e /\
  (is_private e', is_group e', is_channel e') =
    (is_private e, is_group e, is_channel e).
Proof.
  destruct (after_accesses_same_setup l s)
    as (H1 & H2 & H3 & H4 & H5 & H6 & H7 & H8 & H9).
  cbn zeta. rewrite H7, H8, H9. repeat split; assumption.
Qed.

End EventsMore.

Section ChatMore.

Context {W : Type}.
Variable get_peer_id : option TLObject -> result Z.

(** X15: an entity found in [_entities] under the peer's ID is cached
    and returned without a request; neither a client nor a resolved
    input chat is needed for it. *)
Theorem chat_from_entities (ev : EventCommon W) (n : Net W) (i : Z)
    (e : Entity) :
  _chat ev = None ->
  get_peer_id (_chat_peer ev) = Ok i ->
  _entities ev !! i = Some e ->
  await (chat get_peer_id) (ev, n) = (Ok (Some e), (set_chat (Some e) ev, n)).
Proof. intros Hch Hi He. by run_method. Qed.

(** X16: when the chat is neither cached nor in [_entities], [chat]
    makes one request, [get_entity], with whatever [_input_chat] holds at
    that moment.  The entity it returns is cached; if it raises, the
    exception goes to the caller and [_chat] stays unset. *)
Theorem chat_via_get_entity (ev : EventCommon W) (n : Net W)
    (c : TelegramClient W) (i : Z) :
  _chat ev = None ->
  get_peer_id (_chat_peer ev) = Ok i ->
  _entities ev !! i = None ->
  _client ev = Some c ->
  let r := fst (get_entity c (_input_chat ev) (world n)) in
  let n' := {| world := snd (get_entity c (_input_chat ev) (world n));
               trace := trace n ++ [(GetEntity (_input_chat ev), outcome r)] |} in
  await (chat get_peer_id) (ev, n) =
    match r with
    | Ok e => (Ok (Some e), (set_chat (Some e) (set_chat None ev), n'))
    | Raise x => (Raise x, (set_chat None ev, n'))
    end /\
  _chat (fst (snd (await (chat get_peer_id) (ev, n)))) =
    match r with Ok e => Some e | Raise _ => None end.
Proof.
  intros Hch Hi He Hc r n'. subst r n'. run_method.
  destruct (get_entity c (_input_chat ev) (world n)) as [[e | x] w'];
    split; reflexivity.
Qed.

(** X17: when the chat is not cached and [get_peer_id] raises on the
    chat peer (as it may on the [None] of an event without one), [chat]
    raises the same exception, before any lookup, and changes nothing. *)
Theorem chat_peer_id_failure (ev : EventCommon W) (n : Net W) (x : exn) :
  _chat ev = None ->
  get_peer_id (_chat_peer ev) = Raise x ->
  await (chat get_peer_id) (ev, n) = (Raise x, (ev, n)).
Proof. intros Hch Hx. by run_method. Qed.

(** X18: the message fallback of [input_chat] also fills the chat: when
    the fetched message carries its chat, a following access to [chat]
    returns that chat and makes no request. *)
Theorem chat_after_message_fallback (ev : EventCommon W) (n : Net W)
    (c : TelegramClient W) (p : TLObject) (mid : Z) (m : Message.t)
    (e : Entity) (w1 w2 : W) :
  _input_chat ev = None ->
  _chat_peer ev = Some p ->
  _client ev = Some c ->
  isinstance_PeerChannel (Some p) = false ->
  _message_id ev = Some mid ->
  get_input_entity c (RefTL p) (world n) = (Raise ValueError, w1) ->
  get_messages c mid w1 = (Ok (Some m), w2) ->
  Message._chat m = Some e ->
  let s1 := snd (await (input_chat get_peer_id) (ev, n)) in
  await (chat get_peer_id) s1 = (Ok (Some e), s1).
Proof.
  intros Hic Hp Hc Hch Hm Hg Hmsg He s1.
  assert (Hs1 : _chat (fst s1) = Some e).
  { subst s1. run_method. reflexivity. }
  destruct s1 as [ev1 n1]. by apply chat_cached.
Qed.

(** X19: so does the dialog scan: when a dialog had the target ID, a
    following access to [chat] returns the entity of the last such
    dialog and makes no request. *)
Theorem chat_after_dialog_scan (ev : EventCommon W) (n : Net W)
    (c : TelegramClient W) (p : TLObject) (target : Z)
    (ds : list Dialog.t) (stop : option exn) (d : Dialog.t) (w1 w2 : W) :
  _input_chat ev = None ->
  _chat_peer ev = Some p ->
  _client ev = Some c ->
  isinstance_PeerChannel (Some p) = true \/ _message_id ev = None ->
  get_input_entity c (RefTL p) (world n) = (Raise ValueError, w1) ->
  get_peer_id (Some p) = Ok target ->
  iter_dialogs c w1 = ((ds, stop), w2) ->
  last_match target ds = Some d ->
  let s1 := snd (await (input_chat get_peer_id) (ev, n)) in
  await (chat get_peer_id) s1 = (Ok (Some (Dialog.entity d)), s1).
Proof.
  intros Hic Hp Hc Hsel Hg Ht Hd Hl s1.
  assert (Hscan :
    (if negb (isinstance_PeerChannel (Some p))
     then match _message_id ev with Some _ => false | None => true end
     else true) = true).
  { destruct Hsel as [-> | ->]; [reflexivity |].
    by destruct (isinstance_PeerChannel (Some p)). }
  assert (Hs1 : _chat (fst s1) = Some (Dialog.entity d)).
  { subst s1. run_method.
    destruct (isinstance_PeerChannel (Some p)), (_message_id ev);
      try discriminate Hscan; run_method; rewrite for_each_scan, Hl;
      destruct stop; reflexivity. }
  destruct s1 as [ev1 n1]. by apply chat_cached.
Qed.

End ChatMore.

(** ** Rendering and registration *)

Lemma private_underscore (k : string) : String.eqb k "_" = true -> private k = true.
Proof. intros H. apply String.eqb_eq in H. by subst k. Qed.

Lemma public_items_filter {V} (d r : list (string * V)) :
  public_items d = Indexed r ->
  r = List.filter (fun kv => negb (private (fst kv))) d.
Proof.
  revert r. induction d as [| [k v] d IH]; intros r; cbn [public_items].
  - by intros [= <-].
  - destruct k as [| c k]; [discriminate |].
    destruct (public_items d) as [r' |]; [| discriminate].
    intros [= <-]. cbn [List.filter fst private]. rewrite (IH r' eq_refl).
    by destruct (Ascii.eqb c "_").
Qed.

Lemma public_items_error {V} (d : list (string * V)) :
  public_items d = IndexError <-> In EmptyString (List.map fst d).
Proof.
  induction d as [| [k v] d IH]; cbn [public_items List.map fst In].
  - split; [discriminate | tauto].
  - destruct k as [| c k]; [by split; [left |] |].
    destruct (public_items d) as [r' |].
    + split; [discriminate |]. intros [H | H]; [discriminate |].
      by apply IH in H.
    + split; [| done]. intros _. right. by apply IH.
Qed.

Lemma dict_set_new {V} (k : string) (v : V) (d : list (string * V)) :
  Forall (fun kv => String.eqb (fst kv) k = false) d ->
  dict_set k v d = d ++ [(k, v)].
Proof.
  induction 1 as [| [k' v'] d Hk _ IH]; [reflexivity |].
  cbn [dict_set app]. cbn [fst] in Hk. by rewrite Hk, IH.
Qed.

Lemma dict_get_last {V} (k : string) (v : V) (d : list (string * V)) :
  Forall (fun kv => String.eqb (fst kv) k = false) d ->
  dict_get k (d ++ [(k, v)]) = Some v.
Proof.
  induction 1 as [| [k' v'] d Hk _ IH]; cbn [dict_get app].
  - by rewrite String.eqb_refl.
  - cbn [fst] in Hk. by rewrite Hk.
Qed.

Lemma filter_public_no_underscore {V} (d : list (string * V)) :
  Forall (fun kv => String.eqb (fst kv) "_" = false)
         (List.filter (fun kv => negb (private (fst kv))) d).
Proof.
  apply List.Forall_forall. intros [k v] Hin.
  apply List.filter_In in Hin as [_ Hpub]. cbn [fst] in *.
  destruct (String.eqb k "_") eqn:E; [| reflexivity].
  apply private_underscore in E. by rewrite E in Hpub.
Qed.

(** X20: [to_dict] on any instance dictionary.  It raises [IndexError]
    exactly when an attribute has the empty name; otherwise it gives the
    attributes whose name does not start with an underscore, in their
    order and with their values, followed by the key ['_'] with the event
    name, which is the last key and the only one starting with an
    underscore. *)
Theorem to_dict_of_spec {V} (name : V) (d : list (string * V)) :
  (to_dict_of name d = IndexError <-> In EmptyString (List.map fst d)) /\
  (forall r, to_dict_of name d = Indexed r ->
     r = List.filter (fun kv => negb (private (fst kv))) d ++
         [("_", getattr_event_name name d)] /\
     dict_get "_" r = Some (getattr_event_name name d)).
Proof.
  unfold to_dict_of. split.
  - rewrite <- public_items_error.
    by destruct (public_items d).
  - intros r. destruct (public_items d) as [r0 |] eqn:E; [| discriminate].
    intros [= <-]. apply public_items_filter in E. subst r0.
    rewrite dict_set_new by apply filter_public_no_underscore.
    split; [reflexivity |].
    apply dict_get_last, filter_public_no_underscore.
Qed.

(** The rendering of an instance of the base class. *)
Lemma to_dict_base {W} (cls : Class.inner) (e : EventCommon W) :
  to_dict cls e =
    Indexed [("pattern_match", py_option PyStr (pattern_match e));
             ("original_update", py_option PyStr (original_update e));
             ("is_private", PyBool (is_private e));
             ("is_group", PyBool (is_group e));
             ("is_channel", PyBool (is_channel e));
             ("_", PyStr (Class._event_name cls))].
Proof. reflexivity. Qed.

(** X21: the rendering of an event does not depend on what has been
    resolved: after any reads of [input_chat] and [chat], [to_dict] gives
    what it gave before, the caches being private attributes. *)
Theorem to_dict_unaffected_by_accesses {W}
    (get_peer_id : option TLObject -> result Z) (cls : Class.inner)
    (l : list access) (s : Ev W) :
  to_dict cls (fst (after_accesses get_peer_id l s)) = to_dict cls (fst s).
Proof.
  destruct (after_accesses_same_setup get_peer_id l s)
    as (_ & _ & _ & _ & H5 & H6 & H7 & H8 & H9).
  rewrite !to_dict_base. by rewrite H5, H6, H7, H8, H9.
Qed.

(** X22: registration, then rendering: once the decorator has stamped the
    nested class of [cls], an instance of that class renders as its five
    public attributes followed by ['_'] with the class name and
    [.Event]. *)
Theorem to_dict_after_registration {W} (cls : Class.t) (ev0 : Class.inner)
    (e : EventCommon W) :
  Class.Event cls = Some ev0 ->
  exists stamped,
    Class.Event (fst (name_inner_event cls)) = Some stamped /\
    to_dict stamped e =
      Indexed [("pattern_match", py_option PyStr (pattern_match e));
               ("original_update", py_option PyStr (original_update e));
               ("is_private", PyBool (is_private e));
               ("is_group", PyBool (is_group e));
               ("is_channel", PyBool (is_channel e));
               ("_", PyStr (Class.name_ cls +:+ ".Event"))].
Proof.
  intros H. unfold name_inner_event. rewrite H. cbn [fst Class.Event].
  eexists. split; [reflexivity |]. apply to_dict_base.
Qed.

(** X23: the decorator is idempotent on the class and never touches its
    name or module: decorating a decorated class gives the same class
    again; each application issues at most one warning. *)
Theorem name_inner_event_idempotent (cls : Class.t) :
  fst (name_inner_event (fst (name_inner_event cls))) =
    fst (name_inner_event cls) /\
  Class.name_ (fst (name_inner_event cls)) = Class.name_ cls /\
  Class.module_ (fst (name_inner_event cls)) = Class.module_ cls /\
  (length (snd (name_inner_event cls)) <= 1)%nat.
Proof.
  unfold name_inner_event.
  destruct (Class.Event cls) eqn:E; cbn [fst snd Class.Event Class.name_
    Class.module_ length]; rewrite ?E; cbn [fst]; repeat split; lia.
Qed.

(** ** The further properties at concrete inputs *)

Lemma into_id_set_local_no_request_witness :
  snd (_into_id_set sample_peer_id lonely_client
         (CList [RefInt 5; RefTL (PeerChat 3)]) fresh_net) = fresh_net.
Proof. apply into_id_set_local_no_request. reflexivity. Defined.

Lemma into_id_set_app_witness :
  _into_id_set sample_peer_id friendly_client
    (CList ([RefInt (-100)] ++ [RefStr "durov"])) friendly_net =
    (Ok (Some ((∅ ∪ {[ -100 ]}) ∪ (∅ ∪ {[ 1 ]}))),
     {| world := 1%nat; trace := [(GetInputEntity (RefStr "durov"), None)] |}).
Proof.
  apply (into_id_set_app sample_peer_id friendly_client
           [RefInt (-100)] [RefStr "durov"] friendly_net friendly_net);
    reflexivity.
Defined.

Lemma into_id_set_stops_at_failure_witness :
  _into_id_set sample_peer_id lonely_client
    (CList ([RefStr "nobody"] ++ [RefInt 5; RefStr "durov"])) fresh_net =
    (Raise ValueError,
     {| world := tt;
        trace := [(GetInputEntity (RefStr "nobody"), Some ValueError)] |}).
Proof.
  apply (into_id_set_stops_at_failure sample_peer_id lonely_client
           [RefStr "nobody"] [RefInt 5; RefStr "durov"]).
  reflexivity.
Defined.

Lemma resolve_self_reference_witness :
  let b := EventBuilder__init__ (CSingle (RefStr "me")) false in
  resolve sample_peer_id friendly_client (b, friendly_net) =
    (Ok tt,
     (set_self_id 7 (set_chats (CSet {[ 7 ]}) b),
      {| world := 3%nat;
         trace := [(GetInputEntity (RefStr "me"), None); (GetMe, None);
                   (GetMe, None)] |})).
Proof.
  intros b.
  apply (resolve_self_reference sample_peer_id friendly_client b friendly_net
           (RefStr "me") (InputPeerUser 7 0) (InputPeerUser 7 0) 7 7
           1%nat 2%nat 3%nat); reflexivity.
Defined.

Lemma empty_chats_filter_witness :
  let b := EventBuilder__init__ (CList []) false in
  exists b' n',
    resolve sample_peer_id lonely_client (b, fresh_net) = (Ok tt, (b', n')) /\
    chats b' = CSet ∅ /\
    _filter_event sample_peer_id b' user_event = Ok None.
Proof.
  intros b.
  destruct (empty_chats_filter sample_peer_id lonely_client b fresh_net
              (InputPeerUser 7 0) 7 tt eq_refl eq_refl eq_refl)
    as (b' & n' & Hres & Hchats & Hfilter).
  exists b', n'. split; [exact Hres |]. split; [exact Hchats |].
  apply (Hfilter user_event 5). reflexivity.
Defined.

Lemma into_id_set_resolved_again_witness :
  _into_id_set sample_peer_id lonely_client (CSet {[ -5; -7 ]}) fresh_net =
    (Ok (Some {[ -5; -7 ]}), fresh_net).
Proof.
  destruct (into_id_set_resolved_again sample_peer_id lonely_client
              (fun i => i) Z.opp (fun i => - (1000000000000 + i))
              {[ -5; -7 ]} fresh_net (fun k _ _ => sample_encoded k))
    as [Hset Hsame].
  rewrite Hset, Hsame; [reflexivity |].
  intros k Hk. apply elem_of_union in Hk as [Hk | Hk];
    apply elem_of_singleton in Hk; lia.
Defined.

Lemma resolve_then_filter_witness :
  let b := EventBuilder__init__ (CList [RefInt (-100)]) true in
  let b' := set_self_id 7 (set_chats (CSet (∅ ∪ {[ -100 ]})) b) in
  _filter_event sample_peer_id b' user_event = Ok (Some user_event) \/
  _filter_event sample_peer_id b' user_event = Ok None.
Proof.
  intros b b'.
  destruct (resolve_then_filter sample_peer_id lonely_client b b' fresh_net
              {| world := tt; trace := [(GetMe, None)] |} eq_refl)
    as [_ H].
  apply (H user_event 5). reflexivity.
Defined.

Lemma resolve_fails_after_chats_witness :
  let b := EventBuilder__init__ (CList [RefInt (-100)]) false in
  let b' := fst (snd (resolve sample_peer_id flaky_client (b, fresh_net))) in
  fst (resolve sample_peer_id flaky_client (b, fresh_net)) = Raise RPCError /\
  chats b' = CSet (∅ ∪ {[ -100 ]}) /\
  _self_id b' = None.
Proof.
  intros b b'. split; [reflexivity |].
  destruct (resolve_fails_after_chats sample_peer_id flaky_client b b'
              fresh_net fresh_net
              {| world := tt; trace := [(GetMe, Some RPCError)] |}
              (Some (∅ ∪ {[ -100 ]})) RPCError eq_refl eq_refl)
    as (Hc & Hs & _).
  split; [exact Hc | exact Hs].
Defined.

Lemma filter_modes_complement_witness :
  let bw := {| chats := CSet {[ -100 ]}; blacklist_chats := false;
               _self_id := Some 7 |} in
  let bb := {| chats := CSet {[ -100 ]}; blacklist_chats := true;
               _self_id := Some 7 |} in
  (_filter_event sample_peer_id bw user_event = Ok (Some user_event) /\
   _filter_event sample_peer_id bb user_event = Ok None) \/
  (_filter_event sample_peer_id bw user_event = Ok None /\
   _filter_event sample_peer_id bb user_event = Ok (Some user_event)).
Proof.
  intros bw bb.
  apply (filter_modes_complement sample_peer_id bw bb user_event
           {[ -100 ]} 5); reflexivity.
Defined.

Lemma event_without_chat_peer_witness :
  let b := {| chats := CSet {[ -100 ]}; blacklist_chats := false;
              _self_id := Some 7 |} in
  chat_id sample_peer_id orphan_event = Ok None /\
  await (input_chat sample_peer_id) (orphan_event, fresh_net) =
    (Ok None, (orphan_event, fresh_net)) /\
  _filter_event sample_peer_id b orphan_event = Raise TypeError.
Proof.
  intros b.
  destruct (event_without_chat_peer sample_peer_id orphan_event fresh_net b
              eq_refl) as (H1 & H2 & _ & H4).
  split; [exact H1 |]. split; [exact H2 |].
  apply H4; [discriminate | reflexivity].
Defined.

Lemma input_chat_without_fallback_witness :
  await (input_chat sample_peer_id) (friendly_event, friendly_net) =
    (Ok (Some (InputPeerUser 5 99)),
     (set_input_chat (Some (InputPeerUser 5 99)) friendly_event,
      {| world := 1%nat;
         trace := [(GetInputEntity (RefTL (PeerUser 5)), None)] |})).
Proof.
  apply (input_chat_without_fallback sample_peer_id friendly_event
           friendly_net friendly_client (PeerUser 5)
           (Ok (InputPeerUser 5 99)) 1%nat);
    try reflexivity.
  discriminate.
Defined.

Lemma input_chat_needs_client_witness :
  await (input_chat sample_peer_id) (clientless_event, fresh_net) =
    (Raise AttributeError, (clientless_event, fresh_net)).
Proof.
  apply (input_chat_needs_client sample_peer_id clientless_event fresh_net
           (PeerUser 1)); reflexivity.
Defined.

Lemma input_chat_scan_interrupted_witness :
  let s1 := snd (await (input_chat sample_peer_id) (flaky_event, fresh_net)) in
  fst (await (input_chat sample_peer_id) (flaky_event, fresh_net)) =
    Raise ConnectionError /\
  await (input_chat sample_peer_id) s1 =
    (Ok (Some (InputPeerChannel 5 22)), s1).
Proof.
  intros s1.
  destruct (input_chat_scan_interrupted sample_peer_id flaky_event fresh_net
              flaky_client (PeerChannel 5) (-1000000000005) twin_dialogs
              ConnectionError tt tt eq_refl eq_refl eq_refl
              (or_introl eq_refl) eq_refl eq_refl eq_refl)
    as [Hraise Hnext].
  split.
  - by rewrite Hraise.
  - subst s1. rewrite Hraise. apply (Hnext second_twin). reflexivity.
Defined.

Lemma chat_from_entities_witness :
  await (chat sample_peer_id) (local_event, fresh_net) =
    (Ok (Some (User 1 "local")),
     (set_chat (Some (User 1 "local")) local_event, fresh_net)).
Proof.
  apply (chat_from_entities sample_peer_id local_event fresh_net 1);
    reflexivity.
Defined.

Lemma chat_via_get_entity_witness :
  let ev := set_input_chat (Some (InputPeerUser 5 99)) friendly_event in
  await (chat sample_peer_id) (ev, friendly_net) =
    (Ok (Some (User 5 "someone")),
     (set_chat (Some (User 5 "someone")) (set_chat None ev),
      {| world := 1%nat;
         trace := [(GetEntity (Some (InputPeerUser 5 99)), None)] |})).
Proof.
  intros ev.
  apply (chat_via_get_entity sample_peer_id ev friendly_net friendly_client 5);
    reflexivity.
Defined.

Lemma chat_peer_id_failure_witness :
  await (chat sample_peer_id) (orphan_event, fresh_net) =
    (Raise TypeError, (orphan_event, fresh_net)).
Proof.
  apply (chat_peer_id_failure sample_peer_id orphan_event fresh_net);
    reflexivity.
Defined.

Lemma chat_after_message_fallback_witness :
  let s1 := snd (await (input_chat sample_peer_id) (user_event, fresh_net)) in
  await (chat sample_peer_id) s1 = (Ok (Some (User 5 "from message")), s1).
Proof.
  apply (chat_after_message_fallback sample_peer_id user_event fresh_net
           twin_client (PeerUser 5) 9
           (Message.mk (Some (User 5 "from message"))
                       (Some (InputPeerUser 5 1)))
           (User 5 "from message") tt tt); reflexivity.
Defined.

Lemma chat_after_dialog_scan_witness :
  let s1 := snd (await (input_chat sample_peer_id) (channel_event, fresh_net)) in
  await (chat sample_peer_id) s1 = (Ok (Some (Channel 5 "second")), s1).
Proof.
  apply (chat_after_dialog_scan sample_peer_id channel_event fresh_net
           twin_client (PeerChannel 5) (-1000000000005) twin_dialogs None
           second_twin tt tt); try reflexivity.
  left. reflexivity.
Defined.

Lemma to_dict_of_spec_witness :
  dict_get "_" [("title", 2%nat); ("x", 3%nat); ("_", 0%nat)] = Some 0%nat /\
  to_dict_of 0%nat [("title", 2%nat); ("", 3%nat)] = IndexError.
Proof.
  split.
  - destruct (to_dict_of_spec 0%nat
                [("_chat", 1%nat); ("title", 2%nat); ("x", 3%nat)])
      as [_ H].
    destruct (H [("title", 2%nat); ("x", 3%nat); ("_", 0%nat)] eq_refl)
      as [_ Hget].
    exact Hget.
  - apply (to_dict_of_spec 0%nat [("title", 2%nat); ("", 3%nat)]).
    right. left. reflexivity.
Defined.

Lemma to_dict_after_registration_witness :
  exists stamped,
    Class.Event
      (fst (name_inner_event
              (Class.mk "telethon.events.newmessage" "NewMessage"
                        (Some (Class.mk_inner "Event"))))) = Some stamped /\
    to_dict stamped orphan_event =
      Indexed [("pattern_match", PyNone); ("original_update", PyNone);
               ("is_private", PyBool false); ("is_group", PyBool false);
               ("is_channel", PyBool false);
               ("_", PyStr "NewMessage.Event")].
Proof.
  apply (to_dict_after_registration
           (Class.mk "telethon.events.newmessage" "NewMessage"
                     (Some (Class.mk_inner "Event")))
           (Class.mk_inner "Event") orphan_event).
  reflexivity.
Defined.

(** ** The dialog scan on coherent dialogs, and the chat cache *)

Section ScanAndCache.

Context {W : Type}.
Variable get_peer_id : option TLObject -> result Z.




(** C7 (what the code does instead): [chat] can return an entity, found
    in [_entities], while the input chat is still unresolved, its test on
    [self.input_chat] never running the resolution.  A first access to
    [input_chat] that comes next and falls back on the message assigns
    the message's chat to [_chat], and the following access to [chat]
    returns that one. *)
Theorem chat_cache_overwritten (ev : EventCommon W) (n : Net W)
    (c : TelegramClient W) (p : TLObject) (i mid : Z) (m : Message.t)
    (v e' : Entity) (w1 w2 : W) :
  _chat ev = None ->
  _input_chat ev = None ->
  _chat_peer ev = Some p ->
  get_peer_id (Some p) = Ok i ->
  _entities ev !! i = Some v ->
  _client ev = Some c ->
  isinstance_PeerChannel (Some p) = false ->
  _message_id ev = Some mid ->
  get_input_entity c (RefTL p) (world n) = (Raise ValueError, w1) ->
  get_messages c mid w1 = (Ok (Some m), w2) ->
  Message._chat m = Some e' ->
  let s1 := snd (await (chat get_peer_id) (ev, n)) in
  let s2 := snd (await (input_chat get_peer_id) s1) in
  await (chat get_peer_id) (ev, n) = (Ok (Some v), s1) /\
  fst (await (input_chat get_peer_id) s1) = Ok (Message._input_chat m) /\
  await (chat get_peer_id) s2 = (Ok (Some e'), s2).
Proof.
  intros Hch Hic Hp Hi He Hc Hnch Hm Hg Hmsg Hchat s1 s2.
  assert (H1 : await (chat get_peer_id) (ev, n) =
               (Ok (Some v), (set_chat (Some v) ev, n))) by (by run_method).
  assert (H2 : await (input_chat get_peer_id) (set_chat (Some v) ev, n) =
               (Ok (Message._input_chat m),
                (set_input_chat (Message._input_chat m)
                   (set_chat (Message._chat m) (set_chat (Some v) ev)),
                 {| world := w2;
                    trace := trace n ++
                      [(GetInputEntity (RefTL p), Some ValueError);
                       (GetMessages mid, None)] |}))).
  { run_method. by rewrite <- app_assoc. }
  subst s2 s1. rewrite H1. cbn [snd]. rewrite H2. cbn [fst snd].
  split; [reflexivity |]. split; [reflexivity |].
  by apply chat_cached.
Qed.

End ScanAndCache.



Lemma chat_cache_overwritten_witness :
  let s1 := snd (await (chat sample_peer_id) (cached_event, fresh_net)) in
  let s2 := snd (await (input_chat sample_peer_id) s1) in
  await (chat sample_peer_id) (cached_event, fresh_net) =
    (Ok (Some (User 5 "local")), s1) /\
  fst (await (input_chat sample_peer_id) s1) = Ok (Some (InputPeerUser 5 1)) /\
  await (chat sample_peer_id) s2 = (Ok (Some (User 5 "from message")), s2).
Proof.
  apply (chat_cache_overwritten sample_peer_id cached_event fresh_net
           twin_client (PeerUser 5) 5 9
           (Message.mk (Some (User 5 "from message"))
                       (Some (InputPeerUser 5 1)))
           (User 5 "local") (User 5 "from message") tt tt); reflexivity.
Defined.
